(** * MailBot: the processing-state machine of [mailbot/mailbot.py]

    A shallow embedding of the [MailBot] class: the three flag operations
    ([mark_processing], [mark_processed], [mark_unseen]), the timeout reaper
    ([reset_timeout_messages]), the candidate fetch ([get_messages]), the
    dispatcher ([process_message]) and the polling cycle
    ([process_messages]).

    The IMAP client ([self.client], an [imapclient.IMAPClient]) is an
    external collaborator: the methods are written against an interface
    ([Gateway]) and run in a state-and-exception monad whose state holds the
    gateway and a trace of everything observable (gateway calls, log
    records, callback invocations).  State survives a raised exception, as
    side effects do in Python. *)

From Stdlib Require Import ZArith List String Ascii Bool Lia DecimalString.
Import ListNotations.
Local Open Scope Z_scope.
Local Open Scope string_scope.

(** ** Data *)

(** Message identifiers are the integers the gateway assigns. *)
Definition uid := Z.

(** A naive [datetime] (one without tzinfo), as its count of microseconds
    since [datetime.min], 0001-01-01T00:00:00.  Python's values lie
    between 0 and [datetime_max]. *)
Definition time := Z.

(** [datetime.max], 9999-12-31T23:59:59.999999: the last microsecond of
    day 3652059 of the calendar. *)
Definition datetime_max : time := 3652059 * 86400 * 1000000 - 1.

(** A duration of [n] seconds, in microseconds. *)
Definition seconds (n : Z) : Z := n * 1000000.

(** A [datetime] as the client returns it for ['INTERNALDATE'] when
    [normalise_times] is [False]: the date and time the server wrote
    ([dt_naive]) and the UTC offset it wrote them with, in microseconds
    ([None] when it wrote none).  Nothing is converted. *)
Record datetime := {
  dt_naive : time;
  dt_utcoffset : option Z
}.

(** [d.replace(tzinfo=None)]: the same date and time, the offset dropped
    and not applied. *)
Definition replace_tzinfo_none (d : datetime) : time := dt_naive d.

(** The instant the datetime denotes, as a naive UTC datetime: the offset
    is subtracted (a datetime without offset is read as UTC). *)
Definition utc_instant (d : datetime) : time :=
  dt_naive d - match dt_utcoffset d with
               | Some o => o
               | None => 0
               end.

(** The two IMAP flags the class manipulates: ['\\Seen'], ['\\Flagged']. *)
Inductive flag := F_Seen | F_Flagged.

(** The search criteria used by the class. *)
Inductive criterion := Unseen | Unflagged | Flagged | Seen.

(** The fetch fields used by the class. *)
Inductive field := RFC822 | INTERNALDATE.

(** What a caller passes as the [uid] argument of the [mark_*] methods:
    Python does not type it, and the source passes both a single id
    ([process_messages]) and a list of ids ([reset_timeout_messages]). *)
Inductive uid_arg :=
| OneUid (u : uid)
| UidList (l : list uid).

(** The dictionary the gateway returns for one message: a field is present
    when it was fetched. *)
Record fetched := {
  f_rfc822 : option string;
  f_internaldate : option datetime
}.

(** The mapping returned by [fetch], in iteration order. *)
Definition fetched_map := list (uid * fetched).

(** ** Exceptions

    [exn] models instances of Python's [Exception]; they are all caught by
    an [except Exception] clause.  [exn_args] is [e.args], for arguments
    that are text. *)
Inductive exn_class :=
| PyException          (* raise Exception(...) *)
| UnboundLocalError
| KeyError
| AttributeError
| OverflowError
| GatewayError         (* whatever the IMAP client raises *)
| TypeError
| ParseError           (* whatever message_from_string raises *)
| CallbackError.       (* whatever a callback raises *)

Record exn := { exn_cls : exn_class; exn_args : list string }.

Inductive outcome (A : Type) :=
| Return (a : A)
| Raise (e : exn).
Arguments Return {A} a.
Arguments Raise {A} e.

(** ** Rendering of values in messages ([str(...)])

    Integers, lists of integers and text are rendered as Python 3 does. *)
Definition str_int (z : Z) : string := NilZero.string_of_int (Z.to_int z).

(** The double quote character. *)
Definition dquote : ascii := ascii_of_nat 34.

Fixpoint has_char (c : ascii) (s : string) : bool :=
  match s with
  | EmptyString => false
  | String a r => Ascii.eqb a c || has_char c r
  end.

Definition hex_digit (n : nat) : ascii :=
  ascii_of_nat (if (n <? 10)%nat then 48 + n else 87 + n)%nat.

(** One character inside a [repr]: the enclosing quote and the backslash
    are escaped with a backslash, tab, newline and return are written
    [\t], [\n], [\r], any other control character is written [\xhh],
    and every other character stands for itself (bytes above 127 are the
    UTF-8 text of printable characters). *)
Definition repr_char (quote c : ascii) : string :=
  let n := nat_of_ascii c in
  if Ascii.eqb c quote || Ascii.eqb c "\"%char
  then String "\"%char (String c EmptyString)
  else if (n =? 9)%nat then "\t"
  else if (n =? 10)%nat then "\n"
  else if (n =? 13)%nat then "\r"
  else if ((n <? 32) || (n =? 127))%nat
  then String "\"%char
         (String "x"%char
            (String (hex_digit (n / 16))
               (String (hex_digit (n mod 16)) EmptyString)))
  else String c EmptyString.

Fixpoint repr_chars (quote : ascii) (s : string) : string :=
  match s with
  | EmptyString => EmptyString
  | String c r => repr_char quote c ++ repr_chars quote r
  end.

(** [repr(s)] for text: between single quotes, or between double quotes
    when the text has a single quote and no double quote. *)
Definition repr_str (s : string) : string :=
  let quote :=
    if has_char "'"%char s && negb (has_char dquote s)
    then dquote else "'"%char in
  String quote (repr_chars quote s ++ String quote EmptyString).

Fixpoint join (sep : string) (l : list string) : string :=
  match l with
  | [] => ""
  | [x] => x
  | x :: r => x ++ sep ++ join sep r
  end.

Definition str_list (l : list uid) : string :=
  "[" ++ join ", " (map str_int l) ++ "]".

(** [str(e.args)]: the rendering of a tuple of strings. *)
Definition str_args (a : list string) : string :=
  match a with
  | [x] => "(" ++ repr_str x ++ ",)"
  | _ => "(" ++ join ", " (map repr_str a) ++ ")"
  end.

(** [str(ids)] for the result of a search: [None] or a list. *)
Definition str_ids (ids : option (list uid)) : string :=
  match ids with
  | None => "None"
  | Some l => str_list l
  end.

(** [str(msg)] for a dictionary fetched for ['RFC822'], the only ones
    the class renders: the payload key, when present, with a payload that
    is text.  What a client adds to the dictionary beside the fetched
    field is not part of [fetched]. *)
Definition str_fetched (d : fetched) : string :=
  match f_rfc822 d with
  | Some r => "{'RFC822': " ++ repr_str r ++ "}"
  | None => "{}"
  end.

(** ** Date arithmetic

    [timedelta(seconds=n)] for a whole number of seconds: the duration in
    microseconds.  Python refuses a duration of more than 999999999
    days. *)
Definition timedelta_seconds (n : Z) : outcome Z :=
  let days := n / 86400 in
  if (Z.abs days <=? 999999999)%Z then Return (seconds n)
  else Raise {| exn_cls := OverflowError;
                exn_args := ["days=" ++ str_int days
                             ++ "; must have magnitude <= 999999999"] |}.

(** [t - delta] for a naive datetime and a duration: the result must be
    a datetime again. *)
Definition datetime_sub (t : time) (delta : Z) : outcome time :=
  let r := t - delta in
  if ((0 <=? r) && (r <=? datetime_max))%Z then Return r
  else Raise {| exn_cls := OverflowError;
                exn_args := ["date value out of range"] |}.

(** [datetime.utcnow() - timedelta(seconds=self.timeout)], where [now] is
    the reading of [datetime.utcnow()] and the timeout a whole number of
    seconds. *)
Definition pivot (now : time) (tmo : Z) : outcome time :=
  match timedelta_seconds tmo with
  | Return delta => datetime_sub now delta
  | Raise e => Raise e
  end.

(** [str(uid)] for the argument of a [mark_*] method. *)
Definition str_uid (u : uid) : string := str_int u.

(** ** The gateway interface

    The four primitives of the IMAP client the class uses.  Each may
    change the gateway, return a value (possibly [None]) or raise. *)
Class Gateway (G : Type) := {
  gw_search : list criterion -> G -> outcome (option (list uid)) * G;
  gw_fetch : option (list uid) -> list field -> G ->
             outcome (option fetched_map) * G;
  gw_add_flags : list uid_arg -> list flag -> G -> outcome unit * G;
  gw_remove_flags : list uid_arg -> list flag -> G -> outcome unit * G
}.

(** ** Observable events *)
Inductive event (message : Type) :=
| EvSearch (c : list criterion)
| EvFetch (ids : option (list uid)) (f : list field)
| EvAddFlags (ids : list uid_arg) (fl : list flag)
| EvRemoveFlags (ids : list uid_arg) (fl : list flag)
| EvLogError (msg : string)
| EvLogInfo (msg : string)
| EvCheckRules (cb : nat) (m : option message)
| EvTrigger (cb : nat) (m : option message).
Arguments EvSearch {message} c.
Arguments EvFetch {message} ids f.
Arguments EvAddFlags {message} ids fl.
Arguments EvRemoveFlags {message} ids fl.
Arguments EvLogError {message} msg.
Arguments EvLogInfo {message} msg.
Arguments EvCheckRules {message} cb m.
Arguments EvTrigger {message} cb m.

(** ** The monad *)
Record st (G message : Type) := {
  gw : G;
  trace : list (event message)
}.
Arguments gw {G message} s.
Arguments trace {G message} s.

Definition M (G message A : Type) : Type :=
  st G message -> outcome A * st G message.

Section Monad.
Context {G message : Type}.

Definition ret {A} (a : A) : M G message A := fun s => (Return a, s).

Definition raise {A} (e : exn) : M G message A := fun s => (Raise e, s).

Definition bind {A B} (m : M G message A) (k : A -> M G message B)
  : M G message B :=
  fun s =>
    match m s with
    | (Return a, s') => k a s'
    | (Raise e, s') => (Raise e, s')
    end.

(** [try: m  except Exception as e: h e]. *)
Definition try_except {A} (m : M G message A) (h : exn -> M G message A)
  : M G message A :=
  fun s =>
    match m s with
    | (Return a, s') => (Return a, s')
    | (Raise e, s') => h e s'
    end.

(** Lifting a pure computation that may raise. *)
Definition lift {A} (o : outcome A) : M G message A := fun s => (o, s).

Definition emit (ev : event message) : M G message unit :=
  fun s => (Return tt, {| gw := gw s; trace := trace s ++ [ev] |}).

(** Reading a local variable: an unbound one raises
    [UnboundLocalError] (its argument here is the name of the variable,
    not the sentence Python builds around it). *)
Definition read_local {A} (name : string) (v : option A) : M G message A :=
  match v with
  | Some a => ret a
  | None => raise {| exn_cls := UnboundLocalError; exn_args := [name] |}
  end.

(** [for x in l: body x]. *)
Fixpoint for_each {A} (l : list A) (body : A -> M G message unit)
  : M G message unit :=
  match l with
  | [] => ret tt
  | x :: r => bind (body x) (fun _ => for_each r body)
  end.
End Monad.

Notation "x <- m ;; k" := (bind m (fun x => k))
  (at level 61, m at next level, right associativity).
Notation "m ;;; k" := (bind m (fun _ => k))
  (at level 61, right associativity).

(** ** The class *)

(** A registered callback class: instantiated on a message and its rules,
    then asked [check_rules()] and, if that holds, [trigger()].  Both are
    caller-supplied and may raise; they act outside the mailbox, so a
    callback leaves the gateway as it is.  [cb_id] identifies the class in
    the trace. *)
Record callback_class (message rules : Type) := {
  cb_id : nat;
  check_rules : option message -> rules -> outcome bool;
  trigger : option message -> rules -> outcome unit
}.
Arguments cb_id {message rules} c.
Arguments check_rules {message rules} c m r.
Arguments trigger {message rules} c m r.

(** The attributes of a [MailBot] instance other than the client:
    [timeout] is [None] or a whole number of seconds. *)
Record MailBot := { timeout : option Z }.

Section Methods.
Context {G : Type} {GW : Gateway G}.
Context {message rules : Type}.

(** [email.message_from_string]. *)
Variable message_from_string : string -> outcome message.

(** [CALLBACKS_MAP.items()], in iteration order. *)
Variable CALLBACKS_MAP : list (callback_class message rules * rules).

Variable self : MailBot.

(** *** Calls on [self.client] and on [log] *)

Definition client_search (c : list criterion)
  : M G message (option (list uid)) :=
  fun s =>
    let '(r, g) := gw_search c (gw s) in
    (r, {| gw := g; trace := trace s ++ [EvSearch c] |}).

Definition client_fetch (ids : option (list uid)) (f : list field)
  : M G message (option fetched_map) :=
  fun s =>
    let '(r, g) := gw_fetch ids f (gw s) in
    (r, {| gw := g; trace := trace s ++ [EvFetch ids f] |}).

Definition client_add_flags (ids : list uid_arg) (fl : list flag)
  : M G message unit :=
  fun s =>
    let '(r, g) := gw_add_flags ids fl (gw s) in
    (r, {| gw := g; trace := trace s ++ [EvAddFlags ids fl] |}).

Definition client_remove_flags (ids : list uid_arg) (fl : list flag)
  : M G message unit :=
  fun s =>
    let '(r, g) := gw_remove_flags ids fl (gw s) in
    (r, {| gw := g; trace := trace s ++ [EvRemoveFlags ids fl] |}).

Definition log_error (msg : string) : M G message unit :=
  emit (EvLogError msg).

Definition log_info (msg : string) : M G message unit :=
  emit (EvLogInfo msg).

(** [d[key]] on a fetched dictionary. *)
Definition getitem {A} (key : string) (v : option A) : M G message A :=
  match v with
  | Some a => ret a
  | None => raise {| exn_cls := KeyError; exn_args := [key] |}
  end.

(** *** The three flag operations *)

Definition mark_processing (uid : uid_arg) : M G message unit :=
  client_add_flags [uid] [F_Flagged; F_Seen].

Definition mark_processed (uid : uid_arg) : M G message unit :=
  client_remove_flags [uid] [F_Flagged] ;;;
  client_add_flags [uid] [F_Seen].

Definition mark_unseen (uid : uid_arg) : M G message unit :=
  client_remove_flags [uid] [F_Flagged; F_Seen].

(** *** Candidates *)

Definition get_message_ids : M G message (option (list uid)) :=
  client_search [Unseen; Unflagged].

(** The [except] clause of [get_messages]; [ids] is the local variable,
    unbound ([None]) when the search itself raised. *)
Definition get_messages_except (e : exn) (ids : option (option (list uid)))
  : M G message (option fetched_map) :=
  let args := str_args (exn_args e) in
  ids_v <- read_local "ids" ids ;;
  let error_msg :=
    "Error in get_messages: " ++ args ++ "
Ids: " ++ str_ids ids_v in
  log_error error_msg ;;;
  raise {| exn_cls := PyException; exn_args := [error_msg] |}.

Definition get_messages : M G message (option fetched_map) :=
  fun s =>
    match get_message_ids s with
    | (Raise e, s1) => get_messages_except e None s1
    | (Return ids, s1) =>
        try_except (client_fetch ids [RFC822])
                   (fun e => get_messages_except e (Some ids)) s1
    end.

(** *** Dispatch *)

Definition process_message (m : option message)
    (callback : callback_class message rules) (r : rules)
  : M G message unit :=
  emit (EvCheckRules (cb_id callback) m) ;;;
  b <- lift (check_rules callback m r) ;;
  if b : bool then
    emit (EvTrigger (cb_id callback) m) ;;;
    lift (trigger callback m r)
  else ret tt.

(** *** The reaper *)

(** The list comprehension of [reset_timeout_messages]: the ids whose
    [data['INTERNALDATE'].replace(tzinfo=None)] is before the pivot. *)
Fixpoint expired (date_pivot : time) (messages : fetched_map)
  : M G message (list uid) :=
  match messages with
  | [] => ret []
  | (msg_id, data) :: rest =>
      d <- getitem "INTERNALDATE" (f_internaldate data) ;;
      r <- expired date_pivot rest ;;
      ret (if (replace_tzinfo_none d <? date_pivot)%Z
           then msg_id :: r else r)
  end.

(** [now] is the reading of [datetime.utcnow()].  The pivot is computed,
    and may fail, as soon as [messages] is not [None]. *)
Definition reset_timeout_messages (now : time) : M G message unit :=
  match timeout self with
  | None => ret tt
  | Some tmo =>
      ids <- client_search [Flagged; Seen] ;;
      messages <- match ids with
                  | Some _ => client_fetch ids [INTERNALDATE]
                  | None => ret None
                  end ;;
      to_reset <- match messages with
                  | Some ms =>
                      date_pivot <- lift (pivot now tmo) ;;
                      l <- expired date_pivot ms ;;
                      ret (Some l)
                  | None => ret None      (* [to_reset] stays unbound *)
                  end ;;
      l <- read_local "to_reset" to_reset ;;
      match l with
      | [] => ret tt
      | _ :: _ => mark_unseen (UidList l)
      end
  end.

(** *** The cycle *)

(** [messages.items()]; a [None] has no such attribute. *)
Definition items (messages : option fetched_map) : M G message fetched_map :=
  match messages with
  | Some ms => ret ms
  | None => raise {| exn_cls := AttributeError; exn_args := ["items"] |}
  end.

(** The [try] block of the loop body; its value is the new [message]. *)
Definition claim_and_parse (uid : uid) (msg : fetched)
  : M G message (option message) :=
  mark_processing (OneUid uid) ;;;
  raw <- getitem "RFC822" (f_rfc822 msg) ;;
  m <- lift (message_from_string raw) ;;
  log_info ("process_messages successful: " ++ str_fetched msg ++ "
uid: " ++ str_uid uid) ;;;
  ret (Some m).

(** The [except] clause of the loop body; [message] stays [None]. *)
Definition parse_failed (uid : uid) (msg : fetched) (e : exn)
  : M G message (option message) :=
  let error_msg :=
    "Error in process_messages: " ++ str_args (exn_args e) ++ "
Message Raw: " ++ str_fetched msg ++ "
uid: " ++ str_uid uid in
  log_error error_msg ;;;
  mark_unseen (OneUid uid) ;;;
  ret None.

(** One iteration of the loop over [messages.items()]. *)
Definition process_one (item : uid * fetched) : M G message unit :=
  let '(uid, msg) := item in
  m <- try_except (claim_and_parse uid msg) (parse_failed uid msg) ;;
  for_each CALLBACKS_MAP
    (fun '(callback, r) => process_message m callback r) ;;;
  match m with
  | Some _ => mark_processed (OneUid uid)
  | None => ret tt
  end.

Definition process_messages (now : time) : M G message unit :=
  reset_timeout_messages now ;;;
  messages <- get_messages ;;
  ms <- items messages ;;
  for_each ms process_one.
End Methods.

(** ** An in-memory mailbox behind the gateway interface

    The reference gateway against which the flag protocol is checked: a
    mailbox is the list of its messages, each with its two flags and the
    arrival date as the server writes it, offset included.  Search and
    fetch are reads, the flag primitives are writes, and none of them
    fails on well-formed arguments. *)

Record mail := {
  m_uid : uid;
  m_raw : string;
  m_internaldate : datetime;
  m_seen : bool;
  m_flagged : bool
}.

Definition mailbox := list mail.

(** The processing state, a function of the two flags. *)
Inductive ProcessingState := Unprocessed | Processing | Processed | Invalid.

Definition state_of (m : mail) : ProcessingState :=
  match m_seen m, m_flagged m with
  | false, false => Unprocessed
  | true, true => Processing
  | true, false => Processed
  | false, true => Invalid
  end.

Definition matches (m : mail) (c : criterion) : bool :=
  match c with
  | Unseen => negb (m_seen m)
  | Unflagged => negb (m_flagged m)
  | Flagged => m_flagged m
  | Seen => m_seen m
  end.

Definition mem (u : uid) (l : list uid) : bool := existsb (Z.eqb u) l.

Definition mb_search (c : list criterion) (mb : mailbox) : list uid :=
  map m_uid (filter (fun m => forallb (matches m) c) mb).

Definition has_field (f : field) (l : list field) : bool :=
  existsb (fun g => match f, g with
                    | RFC822, RFC822 | INTERNALDATE, INTERNALDATE => true
                    | _, _ => false
                    end) l.

(** The dictionary fetched for a message: the date is handed over as the
    server wrote it, with its offset and without conversion. *)
Definition fetch_data (f : list field) (m : mail) : fetched :=
  {| f_rfc822 := if has_field RFC822 f then Some (m_raw m) else None;
     f_internaldate :=
       if has_field INTERNALDATE f then Some (m_internaldate m) else None |}.

(** A fetch of no messages ([None] or the empty list) is the empty
    mapping. *)
Definition mb_fetch (ids : option (list uid)) (f : list field) (mb : mailbox)
  : fetched_map :=
  match ids with
  | None => []
  | Some l =>
      map (fun m => (m_uid m, fetch_data f m))
          (filter (fun m => mem (m_uid m) l) mb)
  end.

Definition set_flag (b : bool) (fl : flag) (m : mail) : mail :=
  match fl with
  | F_Seen =>
      {| m_uid := m_uid m; m_raw := m_raw m;
         m_internaldate := m_internaldate m;
         m_seen := b; m_flagged := m_flagged m |}
  | F_Flagged =>
      {| m_uid := m_uid m; m_raw := m_raw m;
         m_internaldate := m_internaldate m;
         m_seen := m_seen m; m_flagged := b |}
  end.

Definition set_flags (b : bool) (fl : list flag) (m : mail) : mail :=
  fold_right (set_flag b) m fl.

Definition has_flag (f : flag) (fl : list flag) : bool :=
  existsb (fun g => match f, g with
                    | F_Seen, F_Seen | F_Flagged, F_Flagged => true
                    | _, _ => false
                    end) fl.

(** Setting ([b = true]) or clearing ([b = false]) flags on the messages
    whose id is listed; an id that names no message changes nothing. *)
Definition mb_store (b : bool) (ids : list uid) (fl : list flag) (mb : mailbox)
  : mailbox :=
  map (fun m => if mem (m_uid m) ids then set_flags b fl m else m) mb.

(** What the gateway makes of an element of the id collection that is
    itself a list rather than an id.  The interface does not say; the
    three readings are kept as a parameter of the mailbox. *)
Inductive nested_policy :=
| NestedReject      (* the call raises and changes nothing *)
| NestedFlatten     (* its members are taken as ids *)
| NestedIgnore.     (* it names no message *)

Fixpoint resolve (p : nested_policy) (ids : list uid_arg)
  : option (list uid) :=
  match ids with
  | [] => Some []
  | OneUid u :: r => option_map (cons u) (resolve p r)
  | UidList l :: r =>
      match p with
      | NestedReject => None
      | NestedFlatten => option_map (app l) (resolve p r)
      | NestedIgnore => resolve p r
      end
  end.

Definition mb_flags (p : nested_policy) (b : bool)
    (ids : list uid_arg) (fl : list flag) (mb : mailbox)
  : outcome unit * mailbox :=
  match resolve p ids with
  | Some l => (Return tt, mb_store b l fl mb)
  | None =>
      (Raise {| exn_cls := GatewayError; exn_args := ["bad message set"] |},
       mb)
  end.

Definition mailbox_gateway (p : nested_policy) : Gateway mailbox := {|
  gw_search := fun c mb => (Return (Some (mb_search c mb)), mb);
  gw_fetch := fun ids f mb => (Return (Some (mb_fetch ids f mb)), mb);
  gw_add_flags := mb_flags p true;
  gw_remove_flags := mb_flags p false
|}.

(** The same mailbox with scripted faults: when set, [sc_search]
    (resp. [sc_fetch]) is what the next searches (resp. fetches) answer
    instead of consulting the mailbox. *)
Record scripted := {
  sc_box : mailbox;
  sc_search : option (outcome (option (list uid)));
  sc_fetch : option (outcome (option fetched_map))
}.

Definition sc_with (g : scripted) (mb : mailbox) : scripted :=
  {| sc_box := mb; sc_search := sc_search g; sc_fetch := sc_fetch g |}.

Definition scripted_gateway (p : nested_policy) : Gateway scripted := {|
  gw_search := fun c g =>
    match sc_search g with
    | Some r => (r, g)
    | None => (Return (Some (mb_search c (sc_box g))), g)
    end;
  gw_fetch := fun ids f g =>
    match sc_fetch g with
    | Some r => (r, g)
    | None => (Return (Some (mb_fetch ids f (sc_box g))), g)
    end;
  gw_add_flags := fun ids fl g =>
    let '(r, mb) := mb_flags p true ids fl (sc_box g) in (r, sc_with g mb);
  gw_remove_flags := fun ids fl g =>
    let '(r, mb) := mb_flags p false ids fl (sc_box g) in (r, sc_with g mb)
|}.

(** Running a method on a gateway, from an empty trace. *)
Definition run {G message A} (m : M G message A) (g : G)
  : outcome A * st G message :=
  m {| gw := g; trace := [] |}.

(** The gateway a method leaves behind, whether it returned or raised. *)
Definition exec {G message A} (m : M G message A) (g : G) : G :=
  gw (snd (run m g)).

(** ** Notions used by the statements *)

(** Message ids are unique within a mailbox. *)
Fixpoint distinct (l : list uid) : bool :=
  match l with
  | [] => true
  | u :: r => negb (mem u r) && distinct r
  end.

(** The ids of the messages in Processing whose ['INTERNALDATE'], read
    with its offset dropped, is strictly before [pv]. *)
Definition expired_before (pv : time) (mb : mailbox) : list uid :=
  map m_uid
    (filter (fun m => (m_seen m && m_flagged m)
                      && (replace_tzinfo_none (m_internaldate m) <? pv)%Z)
            mb).

(** The same, for the pivot the reaper computes from the clock and the
    timeout; there is none when that pivot cannot be computed. *)
Definition expired_ids (now : time) (tmo : Z) (mb : mailbox) : list uid :=
  match pivot now tmo with
  | Return pv => expired_before pv mb
  | Raise _ => []
  end.

(** The ids the reaper computes on the in-memory mailbox: among the
    messages fetched for the ids found Flagged and Seen, those whose
    ['INTERNALDATE'] reads before the pivot. *)
Definition fetched_expired (pv : time) (mb : mailbox) : list uid :=
  map m_uid
    (filter (fun m => (replace_tzinfo_none (m_internaldate m) <? pv)%Z)
       (filter (fun m => mem (m_uid m) (mb_search [Flagged; Seen] mb)) mb)).

(** The reaper can compute its pivot, or has none to compute. *)
Definition pivot_representable (self : MailBot) (now : time) : bool :=
  match timeout self with
  | None => true
  | Some tmo =>
      match pivot now tmo with
      | Return _ => true
      | Raise _ => false
      end
  end.



(** A step of the mailbox creates no message in the invalid combination
    (Seen clear, Flagged set): message by message, the ids are kept and an
    invalid message was invalid before. *)
Definition no_new_invalid (mb mb' : mailbox) : Prop :=
  Forall2 (fun m m' => m_uid m' = m_uid m /\
                       (state_of m' = Invalid -> state_of m = Invalid))
          mb mb'.

(** A method creates no invalid message, from whatever state it runs and
    whether it returns or raises. *)
Definition creates_no_invalid {message A} (m : M mailbox message A) : Prop :=
  forall s, no_new_invalid (gw s) (gw (snd (m s))).

(** The message [m] with its flags set to the Processed combination. *)
Definition as_processed (m : mail) : mail :=
  {| m_uid := m_uid m; m_raw := m_raw m;
     m_internaldate := m_internaldate m;
     m_seen := true; m_flagged := false |}.

Definition is_callback_event {message} (ev : event message) : bool :=
  match ev with
  | EvCheckRules _ _ | EvTrigger _ _ => true
  | _ => false
  end.

Definition is_flag_event {message} (ev : event message) : bool :=
  match ev with
  | EvAddFlags _ _ | EvRemoveFlags _ _ => true
  | _ => false
  end.

(** The cycle went on to the messages [rest]: each was at least claimed
    (marked Processing) in the trace. *)
Definition cycle_continues_past {message} (rest : list uid)
    (tr : list (event message)) : Prop :=
  Forall (fun u => In (EvAddFlags [OneUid u] [F_Flagged; F_Seen]) tr) rest.

(** ** Notions used by the further properties *)

(** Dispatching [m] to a registered pair raises nothing: the check
    returns, and the trigger returns when the check holds. *)
Definition quiet_pair {message rules} (m : option message)
    (c : callback_class message rules * rules) : bool :=
  match check_rules (fst c) m (snd c) with
  | Return true =>
      match trigger (fst c) m (snd c) with
      | Return _ => true
      | Raise _ => false
      end
  | Return false => true
  | Raise _ => false
  end.

Definition quiet {message rules} (m : option message)
    (cbs : list (callback_class message rules * rules)) : bool :=
  forallb (quiet_pair m) cbs.

(** The exception a registered pair raises on [m], if any. *)
Definition pair_failure {message rules} (m : option message)
    (c : callback_class message rules * rules) : option exn :=
  match check_rules (fst c) m (snd c) with
  | Return true =>
      match trigger (fst c) m (snd c) with
      | Return _ => None
      | Raise e => Some e
      end
  | Return false => None
  | Raise e => Some e
  end.

(** The rules of the pair match [m]. *)
Definition matching_pair {message rules} (m : option message)
    (c : callback_class message rules * rules) : bool :=
  match check_rules (fst c) m (snd c) with
  | Return true => true
  | _ => false
  end.

(** The callback events of one pair, and of a list of pairs in order. *)
Definition pair_events {message rules} (m : option message)
    (c : callback_class message rules * rules) : list (event message) :=
  EvCheckRules (cb_id (fst c)) m ::
  (if matching_pair m c then [EvTrigger (cb_id (fst c)) m] else []).

Definition dispatch_events {message rules} (m : option message)
    (cbs : list (callback_class message rules * rules))
  : list (event message) :=
  flat_map (pair_events m) cbs.

(** The callbacks triggered in a trace, in order. *)
Definition triggered {message} (tr : list (event message)) : list nat :=
  flat_map (fun ev => match ev with
                      | EvTrigger cb _ => [cb]
                      | _ => []
                      end) tr.

(** The message with both flags overwritten. *)
Definition with_flags (seen flagged : bool) (m : mail) : mail :=
  {| m_uid := m_uid m; m_raw := m_raw m;
     m_internaldate := m_internaldate m;
     m_seen := seen; m_flagged := flagged |}.

(** The three flag operations, by name, and the flags each writes. *)
Inductive mark := MarkProcessing | MarkProcessed | MarkUnseen.

Definition apply_mark {G} {GW : Gateway G} {message} (o : mark) (a : uid_arg)
  : M G message unit :=
  match o with
  | MarkProcessing => mark_processing a
  | MarkProcessed => mark_processed a
  | MarkUnseen => mark_unseen a
  end.

Definition target (o : mark) : mail -> mail :=
  match o with
  | MarkProcessing => with_flags true true
  | MarkProcessed => with_flags true false
  | MarkUnseen => with_flags false false
  end.

(** A method keeps a relation between the mailbox before and after,
    whether it returns or raises. *)
Definition keeps {message A} (R : mailbox -> mailbox -> Prop)
    (m : M mailbox message A) : Prop :=
  forall s, R (gw s) (gw (snd (m s))).

(** Same messages in the same order, with the same id, payload and
    arrival time: only flags may differ. *)
Definition same_content (mb mb' : mailbox) : Prop :=
  Forall2 (fun m m' => m_uid m' = m_uid m /\ m_raw m' = m_raw m /\
                       m_internaldate m' = m_internaldate m) mb mb'.

(** Only messages whose id is in [us] may differ. *)
Definition only_touches (us : list uid) (mb mb' : mailbox) : Prop :=
  Forall2 (fun m m' => m_uid m' = m_uid m /\
                       (mem (m_uid m) us = false -> m' = m)) mb mb'.

(** The message is Unprocessed. *)
Definition unprocessed_b (m : mail) : bool :=
  negb (m_seen m) && negb (m_flagged m).

(** The payload of the message parses. *)
Definition parses {message} (parse : string -> outcome message) (m : mail)
  : bool :=
  match parse (m_raw m) with
  | Return _ => true
  | Raise _ => false
  end.

(** The value of [message] after the [try] block on that payload. *)
Definition parsed {message} (parse : string -> outcome message) (m : mail)
  : option message :=
  match parse (m_raw m) with
  | Return x => Some x
  | Raise _ => None
  end.

(** What the gateway returns for a candidate. *)
Definition candidate (m : mail) : uid * fetched :=
  (m_uid m, {| f_rfc822 := Some (m_raw m); f_internaldate := None |}).

(** What a finished iteration on the candidate [m0] makes of a message
    [m]: a message with the id of [m0] gets the Processed flags when the
    payload of [m0] parses and the Unprocessed flags when it does not;
    any other message is left alone. *)
Definition settle {message} (parse : string -> outcome message)
    (m0 m : mail) : mail :=
  if (m_uid m =? m_uid m0)%Z then
    if parses parse m0 then with_flags true false m
    else with_flags false false m
  else m.

(** The exception that keeps the [try] block from producing a message:
    the ['RFC822'] key is missing, or the parser raises. *)
Definition payload_error {message} (parse : string -> outcome message)
    (d : fetched) : option exn :=
  match f_rfc822 d with
  | None => Some {| exn_cls := KeyError; exn_args := ["RFC822"] |}
  | Some raw =>
      match parse raw with
      | Return _ => None
      | Raise e => Some e
      end
  end.

(** The ids of the fetched entries dated before the pivot, when every
    entry has its ['INTERNALDATE']. *)
Definition dated_before (pivot : time) (ms : fetched_map) : list uid :=
  map fst (filter (fun item => match f_internaldate (snd item) with
                               | Some d => (replace_tzinfo_none d <? pivot)%Z
                               | None => false
                               end) ms).

Definition all_dated (ms : fetched_map) : bool :=
  forallb (fun item => match f_internaldate (snd item) with
                       | Some _ => true
                       | None => false
                       end) ms.

(** ** Concrete inputs *)

Module Demo.
(** A parser that rejects exactly the payload ["garbage"]. *)
Definition parse (raw : string) : outcome string :=
  if String.eqb raw "garbage"
  then Raise {| exn_cls := ParseError; exn_args := ["cannot parse"] |}
  else Return raw.

(** A callback that matches whatever it is given. *)
Definition cb_all : callback_class string unit := {|
  cb_id := 0;
  check_rules := fun _ _ => Return true;
  trigger := fun _ _ => Return tt
|}.

(** A callback that matches and fails in [trigger] on the payload
    ["boom"]. *)
Definition cb_boom : callback_class string unit := {|
  cb_id := 1;
  check_rules := fun _ _ => Return true;
  trigger := fun m _ =>
    match m with
    | Some raw =>
        if String.eqb raw "boom"
        then Raise {| exn_cls := CallbackError; exn_args := ["boom"] |}
        else Return tt
    | None => Return tt
    end
|}.

(** A callback whose [check_rules] reads the message, and so fails on
    [None]. *)
Definition cb_strict : callback_class string unit := {|
  cb_id := 2;
  check_rules := fun m _ =>
    match m with
    | Some _ => Return true
    | None =>
        Raise {| exn_cls := TypeError;
                 exn_args := ["'NoneType' object is not subscriptable"] |}
    end;
  trigger := fun _ _ => Return tt
|}.

(** The clock [s] seconds after an arbitrary hour of the year 1997, and
    an arrival at that time, written by a server in UTC. *)
Definition clock (s : Z) : time := seconds (63000000000 + s).

Definition utc (s : Z) : datetime :=
  {| dt_naive := clock s; dt_utcoffset := Some 0%Z |}.

(** An arrival at [clock s], written by a server [h] hours east of
    UTC. *)
Definition east (h s : Z) : datetime :=
  {| dt_naive := (clock s + seconds (3600 * h))%Z;
     dt_utcoffset := Some (seconds (3600 * h)) |}.

Definition unprocessed (u : uid) (raw : string) (t : Z) : mail :=
  {| m_uid := u; m_raw := raw; m_internaldate := utc t;
     m_seen := false; m_flagged := false |}.

Definition processing (u : uid) (raw : string) (t : Z) : mail :=
  {| m_uid := u; m_raw := raw; m_internaldate := utc t;
     m_seen := true; m_flagged := true |}.

(** Two messages in Processing, arrived at 0 and at 95, and one
    Unprocessed. *)
Definition stuck_box : mailbox :=
  [processing 1 "first" 0; processing 2 "second" 95;
   unprocessed 3 "third" 0].

(** One Unprocessed message that does not parse, then one that does. *)
Definition garbage_box : mailbox :=
  [unprocessed 7 "garbage" 0; unprocessed 8 "fine" 0].

(** One Unprocessed message on which [cb_boom] fails, then one on which
    it does not. *)
Definition boom_box : mailbox :=
  [unprocessed 1 "boom" 0; unprocessed 2 "fine" 0].

(** The same with a fourth message, in Processing, that arrived at 0 and
    is reported by a server two hours east of UTC. *)
Definition offset_box : mailbox :=
  [processing 1 "first" 0; processing 2 "second" 95;
   unprocessed 3 "third" 0;
   {| m_uid := 4; m_raw := "fourth"; m_internaldate := east 2 0;
      m_seen := true; m_flagged := true |}].


Definition no_timeout : MailBot := {| timeout := None |}.
Definition timeout_10 : MailBot := {| timeout := Some 10%Z |}.

Definition gateway_error : exn :=
  {| exn_cls := GatewayError; exn_args := ["connection reset"] |}.

(** A gateway whose fetches fail. *)
Definition fetch_fails (mb : mailbox) : scripted :=
  {| sc_box := mb; sc_search := None;
     sc_fetch := Some (Raise gateway_error) |}.

(** A gateway whose searches fail. *)
Definition search_fails (mb : mailbox) : scripted :=
  {| sc_box := mb; sc_search := Some (Raise gateway_error);
     sc_fetch := None |}.

(** A gateway whose fetches answer [None]. *)
Definition fetch_none (mb : mailbox) : scripted :=
  {| sc_box := mb; sc_search := None; sc_fetch := Some (Return None) |}.

(** A gateway whose fetches answer one entry that has no field. *)
Definition fetch_bare (mb : mailbox) : scripted :=
  {| sc_box := mb; sc_search := None;
     sc_fetch := Some (Return (Some [(1%Z, {| f_rfc822 := None;
                                              f_internaldate := None |})])) |}.

(** A callback that matches nothing. *)
Definition cb_never : callback_class string unit := {|
  cb_id := 3;
  check_rules := fun _ _ => Return false;
  trigger := fun _ _ => Return tt
|}.

(** A gateway whose searches answer [None]. *)
Definition search_none (mb : mailbox) : scripted :=
  {| sc_box := mb; sc_search := Some (Return None); sc_fetch := None |}.
End Demo.

(** * Properties *)

(** ** Laws of the monad and of the loop *)

Section Laws.
Context {G message : Type}.

Lemma bind_return {A B} (m : M G message A) (k : A -> M G message B)
      s a s1 :
  m s = (Return a, s1) -> bind m k s = k a s1.
Proof. unfold bind; intros ->; reflexivity. Qed.

Lemma bind_raise {A B} (m : M G message A) (k : A -> M G message B)
      s e s1 :
  m s = (Raise e, s1) -> bind m k s = (Raise e, s1).
Proof. unfold bind; intros ->; reflexivity. Qed.

(** An iteration that raises ends the loop there: the iterations after
    it are not run. *)
Lemma for_each_abort {A} (body : A -> M G message unit) pre x rest
      s s1 e s2 :
  for_each pre body s = (Return tt, s1) ->
  body x s1 = (Raise e, s2) ->
  for_each (pre ++ x :: rest) body s = (Raise e, s2).
Proof.
  revert s; induction pre as [|y pre IH]; simpl; intros s Hpre Hx.
  - inversion Hpre; subst. now rewrite (bind_raise _ _ _ _ _ Hx).
  - unfold bind in *. destruct (body y s) as [[[]|e'] s'].
    + now apply IH.
    + discriminate.
Qed.
End Laws.

(** ** Failures of the gateway, for any gateway *)

Section AnyGateway.
Context {G : Type} {GW : Gateway G} {message rules : Type}.
Variable message_from_string : string -> outcome message.
Variable CALLBACKS_MAP : list (callback_class message rules * rules).
Variable self : MailBot.

(** C9: when the search inside [get_messages] raises, [ids] was never
    assigned; the handler raises [UnboundLocalError] while it builds the
    message, nothing is logged (the trace gains the search call only),
    and the caller gets that error, not an exception carrying the ids. *)
Theorem get_messages_search_raises (s : st G message) e g1 :
  gw_search [Unseen; Unflagged] (gw s) = (Raise e, g1) ->
  get_messages s =
    (Raise {| exn_cls := UnboundLocalError; exn_args := ["ids"] |},
     {| gw := g1; trace := trace s ++ [EvSearch [Unseen; Unflagged]] |}).
Proof.
  intros H. unfold get_messages, get_message_ids, client_search.
  rewrite H. reflexivity.
Qed.

(** C10: with a timeout configured, when the search of the reaper
    answers [None] nothing is fetched, [to_reset] is never assigned, and
    testing it raises [UnboundLocalError]. *)
Theorem reset_timeout_messages_search_none (s : st G message) now tmo g1 :
  timeout self = Some tmo ->
  gw_search [Flagged; Seen] (gw s) = (Return None, g1) ->
  reset_timeout_messages self now s =
    (Raise {| exn_cls := UnboundLocalError; exn_args := ["to_reset"] |},
     {| gw := g1; trace := trace s ++ [EvSearch [Flagged; Seen]] |}).
Proof.
  intros Ht H. unfold reset_timeout_messages. rewrite Ht.
  unfold bind, client_search. rewrite H. reflexivity.
Qed.

(** For any gateway that answers the search of the reaper with the empty
    list and the fetch of no ids with the empty mapping, and a timeout
    for which the pivot is a date, the reaper returns normally after
    these two reads. *)
Lemma reset_timeout_messages_no_candidates (s : st G message) now tmo pv
      g1 g2 :
  timeout self = Some tmo ->
  pivot now tmo = Return pv ->
  gw_search [Flagged; Seen] (gw s) = (Return (Some []), g1) ->
  gw_fetch (Some []) [INTERNALDATE] g1 = (Return (Some []), g2) ->
  reset_timeout_messages self now s =
    (Return tt,
     {| gw := g2;
        trace := trace s ++ [EvSearch [Flagged; Seen];
                             EvFetch (Some []) [INTERNALDATE]] |}).
Proof.
  intros Ht Hp Hs Hf. unfold reset_timeout_messages. rewrite Ht.
  unfold bind at 1. unfold client_search. rewrite Hs.
  unfold bind at 1. unfold client_fetch. cbn [gw trace]. rewrite Hf.
  unfold bind at 1. unfold bind at 1. unfold lift. rewrite Hp.
  cbn. rewrite <- app_assoc. reflexivity.
Qed.

(** C7: when the bulk fetch raises, the cycle ends there.  The error is
    logged with the ids that were searched, an [Exception] carrying the
    same text (the ids included) reaches the caller of
    [process_messages], and nothing follows the log record: no message
    is claimed, parsed or dispatched. *)
Theorem process_messages_fetch_fails (s0 s : st G message) now ids g1 e g2 :
  reset_timeout_messages self now s0 = (Return tt, s) ->
  gw_search [Unseen; Unflagged] (gw s) = (Return ids, g1) ->
  gw_fetch ids [RFC822] g1 = (Raise e, g2) ->
  let error_msg :=
    "Error in get_messages: " ++ str_args (exn_args e) ++ "
Ids: " ++ str_ids ids in
  process_messages message_from_string CALLBACKS_MAP self now s0 =
    (Raise {| exn_cls := PyException; exn_args := [error_msg] |},
     {| gw := g2;
        trace := trace s ++ [EvSearch [Unseen; Unflagged];
                             EvFetch ids [RFC822];
                             EvLogError error_msg] |}).
Proof.
  intros Hr Hs Hf error_msg. unfold process_messages.
  rewrite (bind_return _ _ _ _ _ Hr).
  apply bind_raise.
  unfold get_messages, get_message_ids, client_search. rewrite Hs.
  unfold try_except, client_fetch. cbn [gw trace]. rewrite Hf.
  unfold get_messages_except. cbn. rewrite <- !app_assoc. reflexivity.
Qed.
End AnyGateway.

Lemma get_messages_search_raises_witness :
  gw_search (Gateway := scripted_gateway NestedReject) [Unseen; Unflagged]
    (Demo.search_fails [Demo.unprocessed 1 "hello" 0])
  = (Raise Demo.gateway_error,
     Demo.search_fails [Demo.unprocessed 1 "hello" 0]) /\
  get_messages (GW := scripted_gateway NestedReject) (message := string)
    {| gw := Demo.search_fails [Demo.unprocessed 1 "hello" 0]; trace := [] |}
  = (Raise {| exn_cls := UnboundLocalError; exn_args := ["ids"] |},
     {| gw := Demo.search_fails [Demo.unprocessed 1 "hello" 0];
        trace := [EvSearch [Unseen; Unflagged]] |}).
Proof.
  split; [reflexivity|].
  apply (get_messages_search_raises (GW := scripted_gateway NestedReject)
           {| gw := Demo.search_fails [Demo.unprocessed 1 "hello" 0];
              trace := [] |} Demo.gateway_error).
  reflexivity.
Defined.

Lemma reset_timeout_messages_search_none_witness :
  timeout Demo.timeout_10 = Some 10%Z /\
  reset_timeout_messages (GW := scripted_gateway NestedReject)
    (message := string) Demo.timeout_10 100
    {| gw := Demo.search_none [Demo.processing 1 "hello" 0]; trace := [] |}
  = (Raise {| exn_cls := UnboundLocalError; exn_args := ["to_reset"] |},
     {| gw := Demo.search_none [Demo.processing 1 "hello" 0];
        trace := [EvSearch [Flagged; Seen]] |}).
Proof.
  split; [reflexivity|].
  apply (reset_timeout_messages_search_none
           (GW := scripted_gateway NestedReject) Demo.timeout_10
           {| gw := Demo.search_none [Demo.processing 1 "hello" 0];
              trace := [] |} 100 10);
    reflexivity.
Defined.

Lemma process_messages_fetch_fails_witness :
  process_messages (GW := scripted_gateway NestedReject)
    Demo.parse [(Demo.cb_all, tt)] Demo.no_timeout 100
    {| gw := Demo.fetch_fails [Demo.unprocessed 1 "hello" 0;
                               Demo.unprocessed 2 "world" 0];
       trace := [] |}
  = (Raise {| exn_cls := PyException;
              exn_args := ["Error in get_messages: ('connection reset',)
Ids: [1, 2]"] |},
     {| gw := Demo.fetch_fails [Demo.unprocessed 1 "hello" 0;
                                Demo.unprocessed 2 "world" 0];
        trace := [EvSearch [Unseen; Unflagged];
                  EvFetch (Some [1; 2]%Z) [RFC822];
                  EvLogError "Error in get_messages: ('connection reset',)
Ids: [1, 2]"] |}).
Proof.
  apply (process_messages_fetch_fails
           (GW := scripted_gateway NestedReject)
           Demo.parse [(Demo.cb_all, tt)] Demo.no_timeout
           {| gw := Demo.fetch_fails [Demo.unprocessed 1 "hello" 0;
                                      Demo.unprocessed 2 "world" 0];
              trace := [] |}
           {| gw := Demo.fetch_fails [Demo.unprocessed 1 "hello" 0;
                                      Demo.unprocessed 2 "world" 0];
              trace := [] |}
           100 (Some [1; 2]%Z)
           (Demo.fetch_fails [Demo.unprocessed 1 "hello" 0;
                              Demo.unprocessed 2 "world" 0])
           Demo.gateway_error
           (Demo.fetch_fails [Demo.unprocessed 1 "hello" 0;
                              Demo.unprocessed 2 "world" 0]));
    reflexivity.
Defined.

(** ** The flag primitives of the in-memory mailbox *)

Lemma mem_In u l : mem u l = true <-> In u l.
Proof.
  unfold mem. rewrite existsb_exists. split.
  - intros [x [Hx He]]. apply Z.eqb_eq in He. now subst.
  - intros H. exists u. split; [assumption | apply Z.eqb_refl].
Qed.

Lemma mem_app u l1 l2 : mem u (l1 ++ l2) = mem u l1 || mem u l2.
Proof. unfold mem. apply existsb_app. Qed.

Lemma set_flags_uid b fl m : m_uid (set_flags b fl m) = m_uid m.
Proof.
  induction fl as [|f fl IH]; simpl; [reflexivity|].
  destruct f; simpl; exact IH.
Qed.

Lemma set_flags_seen b fl m :
  In F_Seen fl -> m_seen (set_flags b fl m) = b.
Proof.
  induction fl as [|f fl IH]; simpl; [tauto|].
  intros [->|H]; [reflexivity|]. destruct f; simpl; auto.
Qed.

Lemma set_flags_flagged b fl m :
  In F_Flagged fl -> m_flagged (set_flags b fl m) = b.
Proof.
  induction fl as [|f fl IH]; simpl; [tauto|].
  intros [->|H]; [reflexivity|]. destruct f; simpl; auto.
Qed.

Lemma set_flags_unseen_kept fl m :
  m_seen (set_flags false fl m) = true -> m_seen m = true.
Proof.
  induction fl as [|f fl IH]; simpl; [tauto|].
  destruct f; simpl; [discriminate | exact IH].
Qed.

Lemma set_flags_flagged_kept fl m :
  m_flagged (set_flags true fl m) = false -> m_flagged m = false.
Proof.
  induction fl as [|f fl IH]; simpl; [tauto|].
  destruct f; simpl; [exact IH | discriminate].
Qed.

Lemma state_invalid m :
  state_of m = Invalid <-> m_seen m = false /\ m_flagged m = true.
Proof.
  unfold state_of. destruct (m_seen m), (m_flagged m);
    split; intros H; try discriminate; try (destruct H; discriminate); auto.
Qed.

Lemma Forall2_map_same {A} (R : A -> A -> Prop) (f : A -> A) l :
  (forall x, R x (f x)) -> Forall2 R l (map f l).
Proof. intros H. induction l; simpl; constructor; auto. Qed.

Lemma no_new_invalid_refl mb : no_new_invalid mb mb.
Proof.
  unfold no_new_invalid. rewrite <- (map_id mb) at 2.
  apply Forall2_map_same. auto.
Qed.

Lemma no_new_invalid_trans mb1 mb2 mb3 :
  no_new_invalid mb1 mb2 -> no_new_invalid mb2 mb3 -> no_new_invalid mb1 mb3.
Proof.
  unfold no_new_invalid. intros H12. revert mb3.
  induction H12 as [|a b l1 l2 [Hu Hi] _ IH]; intros mb3 H23;
    inversion H23 as [|b' c l2' l3 [Hu' Hi'] Hrest]; subst; constructor.
  - split; [congruence | tauto].
  - now apply IH.
Qed.

(** Adding flags among which is [\Seen], or removing flags among which is
    [\Flagged], cannot create the invalid combination. *)
Lemma mb_store_no_new_invalid (b : bool) ids fl mb :
  (if b then In F_Seen fl else In F_Flagged fl) ->
  no_new_invalid mb (mb_store b ids fl mb).
Proof.
  intros Hfl. apply Forall2_map_same. intros m.
  destruct (mem (m_uid m) ids); [|tauto].
  split; [apply set_flags_uid|].
  rewrite !state_invalid. intros [Hs Hf]. exfalso. destruct b.
  - rewrite (set_flags_seen true fl m Hfl) in Hs. discriminate.
  - rewrite (set_flags_flagged false fl m Hfl) in Hf. discriminate.
Qed.

Lemma mb_flags_no_new_invalid p (b : bool) ids fl mb :
  (if b then In F_Seen fl else In F_Flagged fl) ->
  no_new_invalid mb (snd (mb_flags p b ids fl mb)).
Proof.
  intros Hfl. unfold mb_flags. destruct (resolve p ids); simpl.
  - now apply mb_store_no_new_invalid.
  - apply no_new_invalid_refl.
Qed.

Lemma mb_store_nil b fl mb : mb_store b [] fl mb = mb.
Proof. unfold mb_store. simpl. apply map_id. Qed.

Lemma set_flags_spec b fl m :
  set_flags b fl m =
    {| m_uid := m_uid m; m_raw := m_raw m;
       m_internaldate := m_internaldate m;
       m_seen := if has_flag F_Seen fl then b else m_seen m;
       m_flagged := if has_flag F_Flagged fl then b else m_flagged m |}.
Proof.
  induction fl as [|f fl IH].
  - destruct m; reflexivity.
  - change (set_flags b (f :: fl) m) with (set_flag b f (set_flags b fl m)).
    rewrite IH. unfold has_flag. destruct f; simpl.
    + reflexivity.
    + reflexivity.
Qed.

Lemma set_flags_twice b fl m :
  set_flags b fl (set_flags b fl m) = set_flags b fl m.
Proof.
  rewrite !set_flags_spec. simpl.
  destruct (has_flag F_Seen fl), (has_flag F_Flagged fl); reflexivity.
Qed.

Lemma mb_store_store b l1 l2 fl mb :
  mb_store b l2 fl (mb_store b l1 fl mb) = mb_store b (l1 ++ l2) fl mb.
Proof.
  unfold mb_store. rewrite map_map. apply map_ext. intros m.
  rewrite mem_app. destruct (mem (m_uid m) l1) eqn:H1; simpl.
  - rewrite set_flags_uid.
    destruct (mem (m_uid m) l2); [apply set_flags_twice | reflexivity].
  - reflexivity.
Qed.

Lemma mb_store_idem b l fl mb :
  mb_store b l fl (mb_store b l fl mb) = mb_store b l fl mb.
Proof.
  rewrite mb_store_store. unfold mb_store. apply map_ext. intros m.
  rewrite mem_app. now destruct (mem (m_uid m) l).
Qed.

(** ** The flag protocol on the in-memory mailbox *)

Section InMemory.
Variable p : nested_policy.
Context {message rules : Type}.
Variable message_from_string : string -> outcome message.
Variable CALLBACKS_MAP : list (callback_class message rules * rules).
Variable self : MailBot.

#[local] Hint Extern 0 (Gateway mailbox) =>
  exact (mailbox_gateway p) : typeclass_instances.

(** *** Composition of steps that create no invalid message *)

Lemma safe_ret {A} (a : A) : creates_no_invalid (message := message) (ret a).
Proof. intros s. apply no_new_invalid_refl. Qed.

Lemma safe_raise {A} e :
  creates_no_invalid (message := message) (A := A) (raise e).
Proof. intros s. apply no_new_invalid_refl. Qed.

Lemma safe_lift {A} (o : outcome A) :
  creates_no_invalid (message := message) (lift o).
Proof. intros s. apply no_new_invalid_refl. Qed.

Lemma safe_emit ev : creates_no_invalid (message := message) (emit ev).
Proof. intros s. apply no_new_invalid_refl. Qed.

Lemma safe_bind {A B} (m : M mailbox message A) (k : A -> M mailbox message B) :
  creates_no_invalid m -> (forall a, creates_no_invalid (k a)) ->
  creates_no_invalid (bind m k).
Proof.
  intros Hm Hk s. unfold bind. specialize (Hm s).
  destruct (m s) as [[a|e] s1]; simpl in *.
  - eapply no_new_invalid_trans; [exact Hm | apply Hk].
  - exact Hm.
Qed.

Lemma safe_try_except {A} (m : M mailbox message A) h :
  creates_no_invalid m -> (forall e, creates_no_invalid (h e)) ->
  creates_no_invalid (try_except m h).
Proof.
  intros Hm Hh s. unfold try_except. specialize (Hm s).
  destruct (m s) as [[a|e] s1]; simpl in *.
  - exact Hm.
  - eapply no_new_invalid_trans; [exact Hm | apply Hh].
Qed.

Lemma safe_for_each {A} (l : list A) (body : A -> M mailbox message unit) :
  (forall x, creates_no_invalid (body x)) ->
  creates_no_invalid (for_each l body).
Proof.
  intros Hb. induction l as [|x l IH]; simpl.
  - apply safe_ret.
  - apply safe_bind; auto.
Qed.

Lemma safe_read_local {A} name (v : option A) :
  creates_no_invalid (message := message) (read_local name v).
Proof. destruct v; [apply safe_ret | apply safe_raise]. Qed.

Lemma safe_getitem {A} key (v : option A) :
  creates_no_invalid (message := message) (getitem key v).
Proof. destruct v; [apply safe_ret | apply safe_raise]. Qed.

Lemma safe_search c : creates_no_invalid (message := message) (client_search c).
Proof. intros s. apply no_new_invalid_refl. Qed.

Lemma safe_fetch ids f :
  creates_no_invalid (message := message) (client_fetch ids f).
Proof. intros s. apply no_new_invalid_refl. Qed.

Lemma safe_add_flags ids fl :
  In F_Seen fl ->
  creates_no_invalid (message := message) (client_add_flags ids fl).
Proof.
  intros H s. unfold client_add_flags. simpl.
  pose proof (mb_flags_no_new_invalid p true ids fl (gw s) H) as Hs.
  destruct (mb_flags p true ids fl (gw s)) as [r mb]. exact Hs.
Qed.

Lemma safe_remove_flags ids fl :
  In F_Flagged fl ->
  creates_no_invalid (message := message) (client_remove_flags ids fl).
Proof.
  intros H s. unfold client_remove_flags. simpl.
  pose proof (mb_flags_no_new_invalid p false ids fl (gw s) H) as Hs.
  destruct (mb_flags p false ids fl (gw s)) as [r mb]. exact Hs.
Qed.

Lemma safe_mark_processing a :
  creates_no_invalid (message := message) (mark_processing a).
Proof. apply safe_add_flags. simpl; auto. Qed.

Lemma safe_mark_processed a :
  creates_no_invalid (message := message) (mark_processed a).
Proof.
  apply safe_bind; [apply safe_remove_flags | intros _; apply safe_add_flags];
    simpl; auto.
Qed.

Lemma safe_mark_unseen a :
  creates_no_invalid (message := message) (mark_unseen a).
Proof. apply safe_remove_flags. simpl; auto. Qed.

Lemma safe_expired pivot ms :
  creates_no_invalid (message := message) (expired pivot ms).
Proof.
  induction ms as [|[u d] ms IH]; simpl.
  - apply safe_ret.
  - apply safe_bind; [apply safe_getitem | intros t].
    apply safe_bind; [exact IH | intros r; apply safe_ret].
Qed.

Lemma safe_reset_timeout_messages now :
  creates_no_invalid (message := message) (reset_timeout_messages self now).
Proof.
  unfold reset_timeout_messages. destruct (timeout self) as [tmo|].
  - apply safe_bind; [apply safe_search | intros ids].
    apply safe_bind.
    { destruct ids; [apply safe_fetch | apply safe_ret]. }
    intros ms. apply safe_bind.
    { destruct ms; [|apply safe_ret].
      apply safe_bind; [apply safe_lift | intros pv].
      apply safe_bind; [apply safe_expired | intros l; apply safe_ret]. }
    intros tr. apply safe_bind; [apply safe_read_local | intros l].
    destruct l; [apply safe_ret | apply safe_mark_unseen].
  - apply safe_ret.
Qed.

Lemma safe_get_messages : creates_no_invalid (message := message) get_messages.
Proof.
  assert (Hx : forall e ids,
             creates_no_invalid (message := message)
               (get_messages_except e ids)).
  { intros e ids. unfold get_messages_except.
    apply safe_bind; [apply safe_read_local | intros v].
    apply safe_bind; [apply safe_emit | intros _; apply safe_raise]. }
  intros s. unfold get_messages.
  pose proof (safe_search [Unseen; Unflagged] s) as H1.
  unfold get_message_ids.
  destruct (client_search [Unseen; Unflagged] s) as [[ids|e] s1];
    simpl in H1.
  - eapply no_new_invalid_trans; [exact H1|].
    apply safe_try_except; [apply safe_fetch | intros e; apply Hx].
  - eapply no_new_invalid_trans; [exact H1 | apply Hx].
Qed.

Lemma safe_process_message (m : option message)
      (cb : callback_class message rules) (r : rules) :
  creates_no_invalid (process_message m cb r).
Proof.
  unfold process_message.
  apply safe_bind; [apply safe_emit | intros _].
  apply safe_bind; [apply safe_lift | intros b].
  destruct b; [|apply safe_ret].
  apply safe_bind; [apply safe_emit | intros _; apply safe_lift].
Qed.

Lemma safe_process_one item :
  creates_no_invalid (process_one message_from_string CALLBACKS_MAP item).
Proof.
  destruct item as [u d]. unfold process_one.
  apply safe_bind.
  { apply safe_try_except.
    - unfold claim_and_parse.
      apply safe_bind; [apply safe_mark_processing | intros _].
      apply safe_bind; [apply safe_getitem | intros raw].
      apply safe_bind; [apply safe_lift | intros m].
      apply safe_bind; [apply safe_emit | intros _; apply safe_ret].
    - intros e. unfold parse_failed.
      apply safe_bind; [apply safe_emit | intros _].
      apply safe_bind; [apply safe_mark_unseen | intros _; apply safe_ret]. }
  intros m. apply safe_bind.
  { apply safe_for_each. intros [cb r]. apply safe_process_message. }
  intros _. destruct m; [apply safe_mark_processed | apply safe_ret].
Qed.

Lemma safe_process_messages now :
  creates_no_invalid
    (process_messages message_from_string CALLBACKS_MAP self now).
Proof.
  unfold process_messages.
  apply safe_bind; [apply safe_reset_timeout_messages | intros _].
  apply safe_bind; [apply safe_get_messages | intros ms].
  apply safe_bind.
  { destruct ms; [apply safe_ret | apply safe_raise]. }
  intros l. apply safe_for_each. apply safe_process_one.
Qed.

(** C6: none of the three flag operations (on a single id or on a list
    passed as the id), nor the reaper, nor a full cycle, creates a
    message with Seen clear and Flagged set: whatever the mailbox, the
    callbacks, the parser, the timeout and the clock, and whether the
    operation returns or raises, a message that is in that combination
    afterwards was already in it before. *)
Theorem core_operations_create_no_invalid :
  (forall a, creates_no_invalid (message := message) (mark_processing a)) /\
  (forall a, creates_no_invalid (message := message) (mark_processed a)) /\
  (forall a, creates_no_invalid (message := message) (mark_unseen a)) /\
  (forall now,
      creates_no_invalid (message := message)
        (reset_timeout_messages self now)) /\
  (forall now,
      creates_no_invalid
        (process_messages message_from_string CALLBACKS_MAP self now)).
Proof.
  repeat split; intros.
  - apply safe_mark_processing.
  - apply safe_mark_processed.
  - apply safe_mark_unseen.
  - apply safe_reset_timeout_messages.
  - apply safe_process_messages.
Qed.
End InMemory.

(** ** The flag operations as transitions *)

Section Transitions.
Variable p : nested_policy.
Context {message : Type}.

#[local] Hint Extern 0 (Gateway mailbox) =>
  exact (mailbox_gateway p) : typeclass_instances.

Lemma mark_processing_run u (s : st mailbox message) :
  mark_processing (OneUid u) s =
    (Return tt,
     {| gw := mb_store true [u] [F_Flagged; F_Seen] (gw s);
        trace := trace s ++ [EvAddFlags [OneUid u] [F_Flagged; F_Seen]] |}).
Proof. reflexivity. Qed.

Lemma mark_unseen_run u (s : st mailbox message) :
  mark_unseen (OneUid u) s =
    (Return tt,
     {| gw := mb_store false [u] [F_Flagged; F_Seen] (gw s);
        trace := trace s ++
                 [EvRemoveFlags [OneUid u] [F_Flagged; F_Seen]] |}).
Proof. reflexivity. Qed.

Lemma mark_processed_run u (s : st mailbox message) :
  mark_processed (OneUid u) s =
    (Return tt,
     {| gw := mb_store true [u] [F_Seen]
                (mb_store false [u] [F_Flagged] (gw s));
        trace := trace s ++ [EvRemoveFlags [OneUid u] [F_Flagged];
                             EvAddFlags [OneUid u] [F_Seen]] |}).
Proof.
  unfold mark_processed, bind, client_remove_flags, client_add_flags.
  simpl. rewrite <- app_assoc. reflexivity.
Qed.

(** A loop of steps that each rewrite the messages of one id with an
    idempotent [f] rewrites the messages of all the ids with [f]. *)
Lemma for_each_pointwise (f : mail -> mail)
      (op : uid -> M mailbox message unit) ids :
  (forall m, m_uid (f m) = m_uid m) ->
  (forall m, f (f m) = f m) ->
  (forall u s, fst (op u s) = Return tt /\
               gw (snd (op u s)) =
                 map (fun m => if mem (m_uid m) [u] then f m else m) (gw s)) ->
  forall s,
    fst (for_each ids op s) = Return tt /\
    gw (snd (for_each ids op s)) =
      map (fun m => if mem (m_uid m) ids then f m else m) (gw s).
Proof.
  intros Hu Hf Hop. induction ids as [|u ids IH]; intros s.
  - simpl. split; [reflexivity|]. symmetry. apply map_id.
  - simpl for_each. unfold bind. destruct (Hop u s) as [H1 H2].
    destruct (op u s) as [[[]|e] s1]; simpl in H1, H2; [|discriminate].
    destruct (IH s1) as [H3 H4]. split; [exact H3|].
    rewrite H4, H2, map_map. apply map_ext. intros m.
    change (mem (m_uid m) (u :: ids))
      with ((m_uid m =? u)%Z || mem (m_uid m) ids).
    simpl mem. rewrite orb_false_r.
    destruct (m_uid m =? u)%Z eqn:E; simpl.
    + rewrite Hu. destruct (mem (m_uid m) ids); [apply Hf | reflexivity].
    + reflexivity.
Qed.

(** C8: for every list of ids and every mailbox, marking each id
    Processing and then each id Processed returns normally and leaves
    every message whose id is listed with Seen set and Flagged clear
    (and every other message as it was); and for every list of [uid]
    arguments, the mailbox after applying [mark_unseen] to them twice is
    the mailbox after applying it once. *)
Theorem flag_transitions (mb : mailbox) :
  (forall ids : list uid,
      let both : M mailbox message unit :=
        for_each ids (fun u => mark_processing (OneUid u)) ;;;
        for_each ids (fun u => mark_processed (OneUid u)) in
      fst (run both mb) = Return tt /\
      exec both mb =
        map (fun m => if mem (m_uid m) ids then as_processed m else m) mb /\
      Forall (fun m => In (m_uid m) ids -> state_of m = Processed)
             (exec both mb)) /\
  (forall args : list uid_arg,
      let once : M mailbox message unit := for_each args mark_unseen in
      exec once (exec once mb) = exec once mb).
Proof.
  split.
  - intros ids both.
    pose (f1 := set_flags true [F_Flagged; F_Seen]).
    pose (f2 := fun m => set_flags true [F_Seen]
                           (set_flags false [F_Flagged] m)).
    assert (L1 : forall s : st mailbox message,
               fst (for_each ids (fun u => mark_processing (OneUid u)) s)
               = Return tt /\
               gw (snd (for_each ids (fun u => mark_processing (OneUid u)) s))
               = map (fun m => if mem (m_uid m) ids then f1 m else m) (gw s)).
    { apply for_each_pointwise.
      - intros m. apply set_flags_uid.
      - intros m. apply set_flags_twice.
      - intros u s. rewrite mark_processing_run. split; reflexivity. }
    assert (L2 : forall s : st mailbox message,
               fst (for_each ids (fun u => mark_processed (OneUid u)) s)
               = Return tt /\
               gw (snd (for_each ids (fun u => mark_processed (OneUid u)) s))
               = map (fun m => if mem (m_uid m) ids then f2 m else m) (gw s)).
    { apply for_each_pointwise.
      - intros m. unfold f2. now rewrite !set_flags_uid.
      - intros m. unfold f2. rewrite !set_flags_spec. reflexivity.
      - intros u s. rewrite mark_processed_run. split; [reflexivity|].
        cbn [snd gw]. unfold mb_store. rewrite map_map.
        apply map_ext. intros m.
        destruct (mem (m_uid m) [u]) eqn:E; cbv iota beta.
        + rewrite set_flags_uid, E. reflexivity.
        + rewrite E. reflexivity. }
    assert (R : fst (run both mb) = Return tt /\
                exec both mb =
                  map (fun m => if mem (m_uid m) ids
                                then as_processed m else m) mb).
    { unfold exec, run, both, bind.
      destruct (L1 {| gw := mb; trace := [] |}) as [H1 H2].
      destruct (for_each ids (fun u => mark_processing (OneUid u))
                  {| gw := mb; trace := [] |}) as [[[]|e] s1];
        simpl in H1, H2; [|discriminate].
      destruct (L2 s1) as [H3 H4]. split; [exact H3|].
      rewrite H4, H2, map_map. apply map_ext. intros m.
      destruct (mem (m_uid m) ids) eqn:E.
      - unfold f1. rewrite set_flags_uid, E. unfold f2.
        rewrite !set_flags_spec. reflexivity.
      - rewrite E. reflexivity. }
    destruct R as [R1 R2]. repeat split; [exact R1 | exact R2 |].
    rewrite R2. apply Forall_forall. intros m' Hin.
    apply in_map_iff in Hin. destruct Hin as [m [<- _]].
    destruct (mem (m_uid m) ids) eqn:E.
    + intros _. reflexivity.
    + simpl. intros Hin. apply mem_In in Hin. congruence.
  - intros args once.
    assert (L : exists l, forall s : st mailbox message,
                 gw (snd (once s)) =
                   mb_store false l [F_Flagged; F_Seen] (gw s)).
    { unfold once. clear once. induction args as [|a args [l IH]].
      - exists []. intros s. simpl. now rewrite mb_store_nil.
      - simpl for_each. unfold bind, mark_unseen, client_remove_flags.
        simpl gw_remove_flags. unfold mb_flags.
        destruct (resolve p [a]) as [la|].
        + exists (la ++ l)%list. intros s. rewrite IH. simpl.
          apply mb_store_store.
        + exists []. intros s. simpl. now rewrite mb_store_nil. }
    destruct L as [l L]. unfold exec, run. rewrite !L. simpl.
    apply mb_store_idem.
Qed.
End Transitions.

(** ** The reaper on the in-memory mailbox *)

Lemma distinct_inj mb m m' :
  distinct (map m_uid mb) = true ->
  In m mb -> In m' mb -> m_uid m = m_uid m' -> m = m'.
Proof.
  induction mb as [|x mb IH]; simpl; [tauto|].
  intros Hd. apply andb_prop in Hd. destruct Hd as [Hx Hd].
  assert (Hnot : forall y, In y mb -> m_uid x <> m_uid y).
  { intros y Hy E. apply negb_true_iff in Hx.
    assert (mem (m_uid x) (map m_uid mb) = true) as C; [|congruence].
    apply mem_In. rewrite E. now apply in_map. }
  intros [->|H1] [->|H2] E; auto.
  - exfalso. exact (Hnot _ H2 E).
  - exfalso. exact (Hnot _ H1 (eq_sym E)).
Qed.

Lemma filter_filter_and {A} (f g : A -> bool) l :
  filter g (filter f l) = filter (fun x => f x && g x) l.
Proof.
  induction l as [|x l IH]; simpl; [reflexivity|].
  destruct (f x); simpl; [destruct (g x)|]; now rewrite IH.
Qed.

(** With unique ids, what the reaper fetches is exactly what it found. *)
Lemma fetched_expired_distinct pv mb :
  distinct (map m_uid mb) = true ->
  fetched_expired pv mb = expired_before pv mb.
Proof.
  intros Hd. unfold fetched_expired, expired_before. f_equal.
  rewrite filter_filter_and. apply filter_ext_in. intros m Hm.
  f_equal.
  destruct (mem (m_uid m) (mb_search [Flagged; Seen] mb)) eqn:E.
  - apply mem_In in E. unfold mb_search in E.
    apply in_map_iff in E. destruct E as [m' [Hu Hin]].
    apply filter_In in Hin. destruct Hin as [Hin Hq].
    rewrite (distinct_inj mb m m' Hd Hm Hin (eq_sym Hu)).
    simpl in Hq. now destruct (m_seen m'), (m_flagged m').
  - destruct (m_seen m && m_flagged m) eqn:Q; [|reflexivity].
    assert (mem (m_uid m) (mb_search [Flagged; Seen] mb) = true) as C;
      [|congruence].
    apply mem_In. unfold mb_search. apply in_map. apply filter_In.
    split; [assumption|]. simpl. now destruct (m_seen m), (m_flagged m).
Qed.

Lemma In_expired_before pv mb m :
  distinct (map m_uid mb) = true -> In m mb ->
  (In (m_uid m) (expired_before pv mb) <->
   state_of m = Processing /\ replace_tzinfo_none (m_internaldate m) < pv).
Proof.
  intros Hd Hm. unfold expired_before. rewrite in_map_iff. split.
  - intros [m' [Hu Hin]]. apply filter_In in Hin. destruct Hin as [Hin Hq].
    rewrite <- (distinct_inj mb m m' Hd Hm Hin (eq_sym Hu)) in Hq.
    apply andb_prop in Hq. destruct Hq as [Hq Ht].
    apply Z.ltb_lt in Ht. unfold state_of.
    destruct (m_seen m), (m_flagged m); try discriminate. split; [auto|lia].
  - intros [Hs Ht]. exists m. split; [reflexivity|]. apply filter_In.
    split; [assumption|]. apply andb_true_intro. split.
    + unfold state_of in Hs. now destruct (m_seen m), (m_flagged m).
    + apply Z.ltb_lt. lia.
Qed.

(** A pivot that can be computed is the clock minus the timeout. *)
Lemma pivot_value now tmo pv :
  pivot now tmo = Return pv -> pv = now - seconds tmo.
Proof.
  unfold pivot, timedelta_seconds, datetime_sub.
  destruct (Z.abs (tmo / 86400) <=? 999999999)%Z; [|discriminate].
  destruct ((0 <=? now - seconds tmo) && (now - seconds tmo <=? datetime_max))%Z;
    [|discriminate].
  intros H. inversion H. reflexivity.
Qed.


Lemma Forall2_map_in {A} (R : A -> A -> Prop) (f : A -> A) l :
  (forall x, In x l -> R x (f x)) -> Forall2 R l (map f l).
Proof.
  induction l as [|x l IH]; simpl; intros H; constructor; auto.
Qed.

Section Reaper.
Variable p : nested_policy.
Context {message : Type}.

#[local] Hint Extern 0 (Gateway mailbox) =>
  exact (mailbox_gateway p) : typeclass_instances.

Lemma expired_run pv (l : list mail) (s : st mailbox message) :
  expired pv (map (fun m => (m_uid m, fetch_data [INTERNALDATE] m)) l) s
  = (Return (map m_uid
               (filter (fun m =>
                          (replace_tzinfo_none (m_internaldate m) <? pv)%Z)
                       l)),
     s).
Proof.
  induction l as [|m l IH]; simpl; [reflexivity|].
  unfold bind at 1. simpl. unfold bind at 1. rewrite IH.
  unfold ret. now destruct (replace_tzinfo_none (m_internaldate m) <? pv)%Z.
Qed.

(** The run of the reaper with a timeout configured and a pivot that can
    be computed. *)
Lemma reset_timeout_messages_run tmo now pv (s : st mailbox message) :
  pivot now tmo = Return pv ->
  reset_timeout_messages {| timeout := Some tmo |} now s =
    let s2 := {| gw := gw s;
                 trace := trace s ++
                          [EvSearch [Flagged; Seen];
                           EvFetch (Some (mb_search [Flagged; Seen] (gw s)))
                                   [INTERNALDATE]] |} in
    match fetched_expired pv (gw s) with
    | [] => (Return tt, s2)
    | u :: l => mark_unseen (UidList (u :: l)) s2
    end.
Proof.
  intros Hp. unfold reset_timeout_messages. cbn [timeout].
  unfold bind at 1. cbn [client_search gw_search mailbox_gateway gw trace].
  unfold client_search. cbn [gw_search mailbox_gateway].
  unfold bind at 1. unfold client_fetch. cbn [gw_fetch mailbox_gateway gw trace].
  unfold bind at 1. unfold bind at 1. unfold lift at 1. rewrite Hp.
  unfold bind at 1.
  unfold mb_fetch. rewrite expired_run.
  unfold ret, bind, read_local, ret, fetched_expired.
  cbn [gw trace]. rewrite <- app_assoc. cbn [app].
  destruct (map m_uid _); reflexivity.
Qed.

(** The run of the reaper when the pivot cannot be computed: the error
    leaves the reaper after its two reads. *)
Lemma reset_timeout_messages_overflow tmo now e (s : st mailbox message) :
  pivot now tmo = Raise e ->
  reset_timeout_messages {| timeout := Some tmo |} now s =
    (Raise e,
     {| gw := gw s;
        trace := trace s ++
                 [EvSearch [Flagged; Seen];
                  EvFetch (Some (mb_search [Flagged; Seen] (gw s)))
                          [INTERNALDATE]] |}).
Proof.
  intros Hp. unfold reset_timeout_messages. cbn [timeout].
  unfold bind at 1. unfold client_search. cbn [gw_search mailbox_gateway].
  unfold bind at 1. unfold client_fetch. cbn [gw_fetch mailbox_gateway gw trace].
  unfold bind at 1. unfold bind at 1. unfold lift at 1. rewrite Hp.
  rewrite <- app_assoc. reflexivity.
Qed.
End Reaper.

Section ReaperClaims.
Variable p : nested_policy.
Context {message : Type}.

#[local] Hint Extern 0 (Gateway mailbox) =>
  exact (mailbox_gateway p) : typeclass_instances.

(** The mailbox a flag removal on [[UidList l]] leaves, by policy. *)
Lemma mark_unseen_list_run l (s : st mailbox message) :
  gw (snd (mark_unseen (UidList l) s)) =
    match p with
    | NestedFlatten => mb_store false l [F_Flagged; F_Seen] (gw s)
    | _ => gw s
    end /\
  trace (snd (mark_unseen (UidList l) s)) =
    (trace s ++ [EvRemoveFlags [UidList l] [F_Flagged; F_Seen]])%list.
Proof.
  unfold mark_unseen, client_remove_flags. simpl. unfold mb_flags.
  destruct p; simpl; split; try reflexivity.
  - now rewrite app_nil_r.
  - apply mb_store_nil.
Qed.

(** C4: when at least one Processing message has expired, the reaper
    makes exactly one flag call, and the id collection of that call is
    the one-element list holding the list of expired ids, not the list
    of expired ids. *)
Theorem reaper_hands_over_a_nested_list (mb : mailbox) tmo now :
  distinct (map m_uid mb) = true ->
  expired_ids now tmo mb <> [] ->
  trace (snd (run (message := message)
                (reset_timeout_messages {| timeout := Some tmo |} now) mb))
  = [EvSearch [Flagged; Seen];
     EvFetch (Some (mb_search [Flagged; Seen] mb)) [INTERNALDATE];
     EvRemoveFlags [UidList (expired_ids now tmo mb)]
                   [F_Flagged; F_Seen]].
Proof.
  intros Hd Hne. unfold expired_ids in *.
  destruct (pivot now tmo) as [pv|e] eqn:Hp; [|congruence].
  unfold run. rewrite (reset_timeout_messages_run p tmo now pv _ Hp).
  cbn [gw trace]. rewrite (fetched_expired_distinct pv mb Hd).
  destruct (expired_before pv mb) as [|u l]; [congruence|].
  cbv zeta.
  match goal with
  | |- trace (snd (mark_unseen (UidList ?x) ?s)) = _ =>
      destruct (mark_unseen_list_run x s) as [_ ->]
  end.
  reflexivity.
Qed.

(** C5, as the code has it: when no message is found Flagged and Seen,
    and there is no timeout or the pivot [now - timeout] is a date Python
    can represent, the reaper returns normally, leaves the mailbox as it
    was and makes no flag call. *)
Theorem reaper_is_noop_without_candidates self (mb : mailbox) now :
  pivot_representable self now = true ->
  mb_search [Flagged; Seen] mb = [] ->
  fst (run (message := message) (reset_timeout_messages self now) mb)
  = Return tt /\
  exec (message := message) (reset_timeout_messages self now) mb = mb /\
  existsb is_flag_event
    (trace (snd (run (message := message)
                   (reset_timeout_messages self now) mb))) = false.
Proof.
  unfold pivot_representable. intros Hp He. destruct self as [[tmo|]].
  - cbn [timeout] in Hp.
    destruct (pivot now tmo) as [pv|e] eqn:Hpv; [|discriminate].
    unfold exec, run. rewrite (reset_timeout_messages_run p tmo now pv _ Hpv).
    unfold fetched_expired. cbn [gw trace]. rewrite He. simpl mem.
    assert (F : filter (fun _ : mail => false) mb = []).
    { clear. induction mb; simpl; auto. }
    rewrite F. simpl. auto.
  - unfold exec, run, reset_timeout_messages. simpl. auto.
Qed.

End ReaperClaims.

(** With a gateway that takes the members of the nested list as ids,
    unique ids and a pivot that is a date, a Processing message is
    Unprocessed after the reaper exactly when its ['INTERNALDATE'], read
    as the server wrote it with the offset dropped and not applied, is
    more than the timeout before the clock. *)
Lemma reaper_resets_when_flattened {message : Type} (mb : mailbox)
      tmo now pv :
  distinct (map m_uid mb) = true ->
  pivot now tmo = Return pv ->
  Forall2 (fun m m' =>
             state_of m = Processing ->
             (state_of m' = Unprocessed <->
              now - replace_tzinfo_none (m_internaldate m) > seconds tmo))
          mb
          (exec (message := message)
             (reset_timeout_messages (GW := mailbox_gateway NestedFlatten)
                {| timeout := Some tmo |} now) mb).
Proof.
  intros Hd Hp. unfold exec, run.
  rewrite (reset_timeout_messages_run NestedFlatten tmo now pv _ Hp).
  cbn [gw trace]. rewrite (fetched_expired_distinct pv mb Hd).
  pose proof (In_expired_before pv mb) as Hsel.
  pose proof (pivot_value now tmo pv Hp) as Hv.
  destruct (expired_before pv mb) as [|u l] eqn:E; cbv zeta.
  - simpl. rewrite <- (map_id mb) at 2. apply Forall2_map_in.
    intros m Hm Hs. rewrite Hs. split; [discriminate|]. intros Ht.
    exfalso. apply (Hsel m Hd Hm). split; [exact Hs | lia].
  - destruct (mark_unseen_list_run NestedFlatten (message := message)
                (u :: l)
                {| gw := mb;
                   trace := [] ++
                     [EvSearch [Flagged; Seen];
                      EvFetch (Some (mb_search [Flagged; Seen] mb))
                              [INTERNALDATE]] |}) as [-> _].
    cbn [gw]. apply Forall2_map_in. intros m Hm Hs.
    destruct (mem (m_uid m) (u :: l)) eqn:Q.
    + apply mem_In in Q. apply (Hsel m Hd Hm) in Q.
      rewrite set_flags_spec. unfold state_of. simpl.
      split; [intros _; lia | reflexivity].
    + rewrite Hs. split; [discriminate|]. intros Ht. exfalso.
      assert (mem (m_uid m) (u :: l) = true) as C; [|congruence].
      apply mem_In. apply (Hsel m Hd Hm). split; [exact Hs | lia].
Qed.

Lemma reaper_hands_over_a_nested_list_witness :
  distinct (map m_uid Demo.stuck_box) = true /\
  expired_ids (Demo.clock 100) 10 Demo.stuck_box <> [] /\
  trace (snd (run (message := string)
                (reset_timeout_messages (GW := mailbox_gateway NestedReject)
                   {| timeout := Some 10%Z |} (Demo.clock 100))
                Demo.stuck_box))
  = [EvSearch [Flagged; Seen];
     EvFetch (Some (mb_search [Flagged; Seen] Demo.stuck_box)) [INTERNALDATE];
     EvRemoveFlags [UidList (expired_ids (Demo.clock 100) 10 Demo.stuck_box)]
                   [F_Flagged; F_Seen]].
Proof.
  split; [reflexivity|]. split; [discriminate|].
  apply (reaper_hands_over_a_nested_list NestedReject Demo.stuck_box 10
           (Demo.clock 100)).
  - reflexivity.
  - discriminate.
Defined.

Lemma reaper_is_noop_without_candidates_witness :
  pivot_representable Demo.timeout_10 (Demo.clock 100) = true /\
  mb_search [Flagged; Seen] [Demo.unprocessed 3 "third" 0] = [] /\
  fst (run (message := string)
         (reset_timeout_messages (GW := mailbox_gateway NestedReject)
            Demo.timeout_10 (Demo.clock 100))
         [Demo.unprocessed 3 "third" 0])
  = Return tt /\
  exec (message := string)
    (reset_timeout_messages (GW := mailbox_gateway NestedReject)
       Demo.timeout_10 (Demo.clock 100)) [Demo.unprocessed 3 "third" 0]
  = [Demo.unprocessed 3 "third" 0] /\
  existsb is_flag_event
    (trace (snd (run (message := string)
                   (reset_timeout_messages
                      (GW := mailbox_gateway NestedReject)
                      Demo.timeout_10 (Demo.clock 100))
                   [Demo.unprocessed 3 "third" 0]))) = false.
Proof.
  split; [reflexivity|]. split; [reflexivity|].
  apply (reaper_is_noop_without_candidates NestedReject Demo.timeout_10
           [Demo.unprocessed 3 "third" 0] (Demo.clock 100));
    reflexivity.
Defined.

(** C5 as stated fails for a timeout whose pivot is not a date: with no
    message in Processing and a timeout of 10^11 seconds (more than three
    thousand years), the subtraction on line 117 raises [OverflowError],
    so the reaper does not return normally. *)
Lemma reaper_raises_without_candidates :
  ~ (mb_search [Flagged; Seen] [Demo.unprocessed 3 "third" 0] = [] ->
     fst (run (message := string)
            (reset_timeout_messages (GW := mailbox_gateway NestedReject)
               {| timeout := Some 100000000000%Z |} (Demo.clock 100))
            [Demo.unprocessed 3 "third" 0])
     = Return tt).
Proof.
  intros H. specialize (H eq_refl). vm_compute in H. discriminate H.
Qed.



(** The offset the server writes is dropped, not applied: a message that
    arrived at [clock 0] and is reported by a server two hours east of
    UTC is, one hour later and with a timeout of 10 seconds, older than
    the timeout, yet the reaper does not select it. *)
Lemma reaper_drops_utc_offset :
  let m := {| m_uid := 1; m_raw := "hello";
              m_internaldate := Demo.east 2 0;
              m_seen := true; m_flagged := true |} in
  Demo.clock 3600 - utc_instant (m_internaldate m) > seconds 10 /\
  run (message := string)
    (reset_timeout_messages (GW := mailbox_gateway NestedFlatten)
       Demo.timeout_10 (Demo.clock 3600)) [m]
  = (Return tt,
     {| gw := [m];
        trace := [EvSearch [Flagged; Seen];
                  EvFetch (Some [1]) [INTERNALDATE]] |}).
Proof. split; [vm_compute; reflexivity | reflexivity]. Qed.

(** ** Dispatch and the cycle *)

Section Dispatch.
Context {G : Type} {GW : Gateway G} {message rules : Type}.

Lemma process_message_frame (m : option message)
      (cb : callback_class message rules) (r : rules) (s : st G message) :
  gw (snd (process_message m cb r s)) = gw s /\
  exists tr, trace (snd (process_message m cb r s)) = (trace s ++ tr)%list /\
             forallb is_callback_event tr = true.
Proof.
  unfold process_message, bind, emit, lift, ret. simpl.
  destruct (check_rules cb m r) as [[|]|e]; simpl;
    [destruct (trigger cb m r) as [[]|e]; simpl | |];
    (split; [reflexivity|]); rewrite <- ?app_assoc;
    eexists; (split; [reflexivity|]); reflexivity.
Qed.

(** Dispatching a message touches the gateway not at all and adds only
    callback events to the trace. *)
Lemma dispatch_frame (m : option message)
      (cbs : list (callback_class message rules * rules))
      (s : st G message) :
  gw (snd (for_each cbs (fun '(cb, r) => process_message m cb r) s)) = gw s /\
  exists tr,
    trace (snd (for_each cbs (fun '(cb, r) => process_message m cb r) s))
    = (trace s ++ tr)%list /\
    forallb is_callback_event tr = true.
Proof.
  revert s. induction cbs as [|[cb r] cbs IH]; intros s.
  - simpl. split; [reflexivity|]. exists []. now rewrite app_nil_r.
  - simpl for_each. unfold bind.
    destruct (process_message_frame m cb r s) as [Hg [tr [Ht Hc]]].
    destruct (process_message m cb r s) as [[[]|e] s1]; simpl in Hg, Ht.
    + destruct (IH s1) as [Hg' [tr' [Ht' Hc']]]. split; [congruence|].
      exists (tr ++ tr')%list. rewrite Ht', Ht, app_assoc. split; [reflexivity|].
      rewrite forallb_app, Hc, Hc'. reflexivity.
    + simpl. split; [exact Hg|]. exists tr. auto.
Qed.
End Dispatch.

Section Cycle.
Variable p : nested_policy.
Context {message rules : Type}.
Variable message_from_string : string -> outcome message.
Variable CALLBACKS_MAP : list (callback_class message rules * rules).
Variable self : MailBot.

#[local] Hint Extern 0 (Gateway mailbox) =>
  exact (mailbox_gateway p) : typeclass_instances.

(** The mailbox after a successful claim and parse. *)
Lemma claim_and_parse_gw u d (s s' : st mailbox message) m :
  claim_and_parse message_from_string u d s = (Return m, s') ->
  gw s' = mb_store true [u] [F_Flagged; F_Seen] (gw s).
Proof.
  unfold claim_and_parse. rewrite (bind_return _ _ _ _ _
                                     (mark_processing_run p u s)).
  unfold bind, getitem, lift, log_info, emit, ret, raise.
  destruct (f_rfc822 d) as [raw|]; [|discriminate].
  destruct (message_from_string raw) as [x|e]; [|discriminate].
  simpl. intros H. inversion H. reflexivity.
Qed.

(** What an iteration does when the payload does not parse: the
    message is claimed, the failure is logged with the payload and the
    id, the claim is undone, and then every registered callback is
    dispatched on [None]. *)
Lemma process_one_parse_failure u d raw e (s : st mailbox message) :
  f_rfc822 d = Some raw ->
  message_from_string raw = Raise e ->
  process_one message_from_string CALLBACKS_MAP (u, d) s =
    for_each CALLBACKS_MAP (fun '(cb, r) => process_message None cb r)
      {| gw := mb_store false [u] [F_Flagged; F_Seen]
                 (mb_store true [u] [F_Flagged; F_Seen] (gw s));
         trace := trace s ++
           [EvAddFlags [OneUid u] [F_Flagged; F_Seen];
            EvLogError ("Error in process_messages: "
                        ++ str_args (exn_args e) ++ "
Message Raw: " ++ str_fetched d ++ "
uid: " ++ str_uid u);
            EvRemoveFlags [OneUid u] [F_Flagged; F_Seen]] |}.
Proof.
  intros Hd He. unfold process_one.
  unfold bind at 1. unfold try_except, claim_and_parse.
  rewrite (bind_return _ _ _ _ _ (mark_processing_run p u s)).
  unfold bind at 1. unfold getitem. rewrite Hd. unfold ret at 1.
  unfold bind at 1. unfold lift. rewrite He.
  unfold parse_failed, bind at 1. unfold log_error, emit.
  unfold bind at 1. rewrite mark_unseen_run. unfold ret at 1.
  cbn [gw trace]. rewrite <- !app_assoc. cbn [app].
  unfold bind.
  destruct (for_each CALLBACKS_MAP _ _) as [[[]|x] s']; reflexivity.
Qed.

(** C2, as the code has it: when a callback raises while a message that
    parsed is being dispatched, the exception leaves [process_messages]
    and ends the cycle.  The message is left in Processing, no gateway
    call follows its claim (it is not marked Processed, and the messages
    fetched after it are neither claimed nor dispatched). *)
Theorem callback_failure_ends_cycle now pre u d rest m e
        (s s0 s1 s2 s3 s4 : st mailbox message) :
  reset_timeout_messages self now s = (Return tt, s0) ->
  get_messages s0 = (Return (Some (pre ++ (u, d) :: rest)%list), s1) ->
  for_each pre (process_one message_from_string CALLBACKS_MAP) s1
  = (Return tt, s2) ->
  claim_and_parse message_from_string u d s2 = (Return (Some m), s3) ->
  for_each CALLBACKS_MAP (fun '(cb, r) => process_message (Some m) cb r) s3
  = (Raise e, s4) ->
  process_messages message_from_string CALLBACKS_MAP self now s
  = (Raise e, s4) /\
  gw s4 = mb_store true [u] [F_Flagged; F_Seen] (gw s2) /\
  Forall (fun x => m_uid x = u -> state_of x = Processing) (gw s4) /\
  exists tr, trace s4 = (trace s3 ++ tr)%list /\
             forallb is_callback_event tr = true.
Proof.
  intros Hr Hg Hpre Hc Hd.
  pose proof (dispatch_frame (Some m) CALLBACKS_MAP s3) as F.
  rewrite Hd in F. simpl in F. destruct F as [Fg Ft].
  pose proof (claim_and_parse_gw u d s2 s3 (Some m) Hc) as Hgw.
  assert (G4 : gw s4 = mb_store true [u] [F_Flagged; F_Seen] (gw s2))
    by congruence.
  repeat split; [| exact G4 | | exact Ft].
  - unfold process_messages.
    rewrite (bind_return _ _ _ _ _ Hr).
    rewrite (bind_return _ _ _ _ _ Hg).
    unfold items. unfold bind at 1. unfold ret at 1.
    apply (for_each_abort _ pre (u, d) rest s1 s2 e s4 Hpre).
    unfold process_one. unfold bind at 1. unfold try_except.
    rewrite Hc. unfold bind. rewrite Hd. reflexivity.
  - rewrite G4. unfold mb_store. apply Forall_forall. intros x Hx.
    apply in_map_iff in Hx. destruct Hx as [y [<- _]].
    destruct (mem (m_uid y) [u]) eqn:E.
    + intros _. rewrite set_flags_spec. reflexivity.
    + intros Hu. rewrite <- Hu in E. simpl in E.
      rewrite Z.eqb_refl in E. discriminate.
Qed.
End Cycle.

Lemma callback_failure_ends_cycle_witness :
  process_messages (GW := mailbox_gateway NestedReject)
    Demo.parse [(Demo.cb_boom, tt)] Demo.no_timeout 100
    {| gw := Demo.boom_box; trace := [] |}
  = (Raise {| exn_cls := CallbackError; exn_args := ["boom"] |},
     {| gw := [Demo.processing 1 "boom" 0; Demo.unprocessed 2 "fine" 0];
        trace :=
          [EvSearch [Unseen; Unflagged]; EvFetch (Some [1; 2]%Z) [RFC822];
           EvAddFlags [OneUid 1] [F_Flagged; F_Seen];
           EvLogInfo "process_messages successful: {'RFC822': 'boom'}
uid: 1";
           EvCheckRules 1 (Some "boom"); EvTrigger 1 (Some "boom")] |}).
Proof.
  apply (proj1
    (callback_failure_ends_cycle NestedReject Demo.parse
       [(Demo.cb_boom, tt)] Demo.no_timeout 100
       [] 1 {| f_rfc822 := Some "boom"; f_internaldate := None |}
       [(2, {| f_rfc822 := Some "fine"; f_internaldate := None |})]
       "boom" {| exn_cls := CallbackError; exn_args := ["boom"] |}
       {| gw := Demo.boom_box; trace := [] |}
       {| gw := Demo.boom_box; trace := [] |}
       {| gw := Demo.boom_box;
          trace := [EvSearch [Unseen; Unflagged];
                    EvFetch (Some [1; 2]%Z) [RFC822]] |}
       {| gw := Demo.boom_box;
          trace := [EvSearch [Unseen; Unflagged];
                    EvFetch (Some [1; 2]%Z) [RFC822]] |}
       {| gw := [Demo.processing 1 "boom" 0; Demo.unprocessed 2 "fine" 0];
          trace :=
            [EvSearch [Unseen; Unflagged]; EvFetch (Some [1; 2]%Z) [RFC822];
             EvAddFlags [OneUid 1] [F_Flagged; F_Seen];
             EvLogInfo "process_messages successful: {'RFC822': 'boom'}
uid: 1"] |}
       _
       eq_refl eq_refl eq_refl eq_refl eq_refl)).
Defined.

(** C2 as stated fails: with two Unprocessed messages and a callback that
    raises on the first, it is not the case that the first is left in
    Processing and the cycle goes on to the second.  The cycle ends with
    the callback's exception and the second message is never claimed. *)
Lemma callback_failure_aborts_remaining :
  ~ (Forall (fun m => m_uid m = 1 -> state_of m = Processing)
       (exec (process_messages (GW := mailbox_gateway NestedReject)
                Demo.parse [(Demo.cb_boom, tt)] Demo.no_timeout 100)
             Demo.boom_box)
     /\
     cycle_continues_past [2]
       (trace (snd (run (process_messages (GW := mailbox_gateway NestedReject)
                           Demo.parse [(Demo.cb_boom, tt)]
                           Demo.no_timeout 100)
                        Demo.boom_box)))).
Proof.
  intros [_ H]. unfold cycle_continues_past in H.
  apply Forall_inv in H. vm_compute in H.
  repeat (destruct H as [H|H]; [discriminate H|]). exact H.
Qed.

(** C1 on a concrete cycle: an Unprocessed message that does not parse is
    claimed, logged with its payload and id, and reverted to Unprocessed,
    but the dispatch loop still runs for it, on [None].  A callback that
    matches is checked and triggered on [None]; a callback whose check
    reads the message raises, and that exception ends the cycle before the
    next fetched message is looked at. *)
Theorem dispatch_runs_after_parse_failure :
  run (process_messages (GW := mailbox_gateway NestedReject)
         Demo.parse [(Demo.cb_all, tt)] Demo.no_timeout 100)
      [Demo.unprocessed 7 "garbage" 0]
  = (Return tt,
     {| gw := [Demo.unprocessed 7 "garbage" 0];
        trace :=
          [EvSearch [Unseen; Unflagged]; EvFetch (Some [7]) [RFC822];
           EvAddFlags [OneUid 7] [F_Flagged; F_Seen];
           EvLogError "Error in process_messages: ('cannot parse',)
Message Raw: {'RFC822': 'garbage'}
uid: 7";
           EvRemoveFlags [OneUid 7] [F_Flagged; F_Seen];
           EvCheckRules 0 None; EvTrigger 0 None] |})
  /\
  run (process_messages (GW := mailbox_gateway NestedReject)
         Demo.parse [(Demo.cb_strict, tt)] Demo.no_timeout 100)
      Demo.garbage_box
  = (Raise {| exn_cls := TypeError;
              exn_args := ["'NoneType' object is not subscriptable"] |},
     {| gw := Demo.garbage_box;
        trace :=
          [EvSearch [Unseen; Unflagged]; EvFetch (Some [7; 8]) [RFC822];
           EvAddFlags [OneUid 7] [F_Flagged; F_Seen];
           EvLogError "Error in process_messages: ('cannot parse',)
Message Raw: {'RFC822': 'garbage'}
uid: 7";
           EvRemoveFlags [OneUid 7] [F_Flagged; F_Seen];
           EvCheckRules 2 None] |}).
Proof. split; reflexivity. Qed.

(** * Further properties *)

(** ** The dispatcher *)

Section DispatchOrder.
Context {G : Type} {message rules : Type}.

Lemma process_message_quiet (m : option message)
      (c : callback_class message rules * rules) (s : st G message) :
  quiet_pair m c = true ->
  process_message m (fst c) (snd c) s =
    (Return tt, {| gw := gw s; trace := trace s ++ pair_events m c |}).
Proof.
  unfold quiet_pair, process_message, pair_events, matching_pair.
  unfold bind, emit, lift, ret. simpl.
  destruct (check_rules (fst c) m (snd c)) as [[|]|e]; simpl;
    [|reflexivity|discriminate].
  destruct (trigger (fst c) m (snd c)) as [[]|e]; [|discriminate].
  intros _. simpl. now rewrite <- app_assoc.
Qed.

Lemma process_message_failure (m : option message)
      (c : callback_class message rules * rules) (s : st G message) e :
  pair_failure m c = Some e ->
  process_message m (fst c) (snd c) s =
    (Raise e, {| gw := gw s; trace := trace s ++ pair_events m c |}).
Proof.
  unfold pair_failure, process_message, pair_events, matching_pair.
  unfold bind, emit, lift, ret. simpl.
  destruct (check_rules (fst c) m (snd c)) as [[|]|e']; simpl.
  - destruct (trigger (fst c) m (snd c)) as [[]|e'']; [discriminate|].
    intros H. inversion H. simpl. now rewrite <- app_assoc.
  - discriminate.
  - intros H. inversion H. reflexivity.
Qed.

Lemma dispatch_quiet_run (m : option message)
      (cbs : list (callback_class message rules * rules))
      (s : st G message) :
  quiet m cbs = true ->
  for_each cbs (fun '(cb, r) => process_message m cb r) s =
    (Return tt,
     {| gw := gw s; trace := trace s ++ dispatch_events m cbs |}).
Proof.
  revert s. induction cbs as [|[cb r] cbs IH]; intros s Hq.
  - simpl. unfold ret. rewrite app_nil_r. now destruct s.
  - simpl in Hq. apply andb_prop in Hq. destruct Hq as [Hc Hq].
    simpl for_each.
    rewrite (bind_return _ _ _ _ _ (process_message_quiet m (cb, r) s Hc)).
    rewrite (IH _ Hq). cbn [gw trace dispatch_events flat_map].
    now rewrite <- app_assoc.
Qed.

Lemma triggered_dispatch_events (m : option message)
      (cbs : list (callback_class message rules * rules)) :
  triggered (dispatch_events m cbs)
  = map (fun c => cb_id (fst c)) (filter (matching_pair m) cbs).
Proof.
  induction cbs as [|c cbs IH]; [reflexivity|].
  cbn [dispatch_events flat_map filter]. unfold triggered in *.
  rewrite flat_map_app. fold (dispatch_events m cbs). rewrite IH.
  unfold pair_events. destruct (matching_pair m c); reflexivity.
Qed.

(** When no registered callback raises on a message, dispatching it
    returns normally and leaves the gateway alone; every registered pair
    is checked, in registration order, and the callbacks triggered are
    exactly those whose check holds, in registration order. *)
Theorem dispatch_triggers_exactly_matching (m : option message)
        (cbs : list (callback_class message rules * rules))
        (s : st G message) :
  quiet m cbs = true ->
  for_each cbs (fun '(cb, r) => process_message m cb r) s
  = (Return tt,
     {| gw := gw s; trace := trace s ++ dispatch_events m cbs |}) /\
  triggered (dispatch_events m cbs)
  = map (fun c => cb_id (fst c)) (filter (matching_pair m) cbs).
Proof.
  intros Hq. split; [now apply dispatch_quiet_run|].
  apply triggered_dispatch_events.
Qed.

(** When a registered callback raises, the dispatch ends with that
    exception: the pairs registered after it are neither checked nor
    triggered, and what the pairs before it did stays done. *)
Theorem dispatch_stops_at_first_failure (m : option message)
        (pre rest : list (callback_class message rules * rules))
        (c : callback_class message rules * rules) e (s : st G message) :
  quiet m pre = true ->
  pair_failure m c = Some e ->
  for_each (pre ++ c :: rest) (fun '(cb, r) => process_message m cb r) s
  = (Raise e,
     {| gw := gw s;
        trace := trace s ++ dispatch_events m pre ++ pair_events m c |}).
Proof.
  intros Hq Hf. eapply for_each_abort.
  - apply (dispatch_quiet_run m pre s Hq).
  - destruct c as [cb r]. cbv beta iota.
    etransitivity; [apply (process_message_failure m (cb, r) _ e Hf)|].
    cbn [gw trace]. now rewrite <- app_assoc.
Qed.
End DispatchOrder.

(** ** Edge answers of the gateway, for any gateway *)

Section EdgeAnswers.
Context {G : Type} {GW : Gateway G} {message rules : Type}.
Variable message_from_string : string -> outcome message.
Variable CALLBACKS_MAP : list (callback_class message rules * rules).
Variable self : MailBot.

Lemma expired_missing_key pivot (ms : fetched_map) (s : st G message) :
  existsb (fun item => match f_internaldate (snd item) with
                       | Some _ => false
                       | None => true
                       end) ms = true ->
  expired pivot ms s =
    (Raise {| exn_cls := KeyError; exn_args := ["INTERNALDATE"] |}, s).
Proof.
  induction ms as [|[u d] ms IH]; simpl; [discriminate|].
  unfold bind at 1. unfold getitem.
  destruct (f_internaldate d) as [t|]; simpl.
  - intros H. unfold ret at 1. unfold bind at 1. now rewrite (IH H).
  - reflexivity.
Qed.

(** With a timeout configured, when an entry fetched by the reaper has no
    ['INTERNALDATE'], the reaper raises after its two reads: [KeyError]
    for the missing key or, when the pivot is not a date, the error of
    the subtraction that comes first.  Either way no flag is touched,
    not even for the entries that have expired. *)
Theorem reaper_missing_internaldate (s : st G message) now tmo
        ids g1 ms g2 :
  timeout self = Some tmo ->
  gw_search [Flagged; Seen] (gw s) = (Return (Some ids), g1) ->
  gw_fetch (Some ids) [INTERNALDATE] g1 = (Return (Some ms), g2) ->
  existsb (fun item => match f_internaldate (snd item) with
                       | Some _ => false
                       | None => true
                       end) ms = true ->
  reset_timeout_messages self now s =
    (Raise match pivot now tmo with
           | Return _ =>
               {| exn_cls := KeyError; exn_args := ["INTERNALDATE"] |}
           | Raise e => e
           end,
     {| gw := g2;
        trace := trace s ++ [EvSearch [Flagged; Seen];
                             EvFetch (Some ids) [INTERNALDATE]] |}).
Proof.
  intros Ht Hs Hf Hk. unfold reset_timeout_messages. rewrite Ht.
  unfold bind at 1. unfold client_search. rewrite Hs.
  unfold bind at 1. unfold client_fetch. cbn [gw trace]. rewrite Hf.
  unfold bind at 1. unfold bind at 1. unfold lift at 1.
  destruct (pivot now tmo) as [pv|e].
  - unfold bind at 1. rewrite (expired_missing_key _ ms _ Hk).
    cbn [gw trace]. now rewrite <- app_assoc.
  - cbn [gw trace]. now rewrite <- app_assoc.
Qed.

(** With a timeout configured, when the fetch of the reaper answers
    [None], [to_reset] is never assigned and the reaper raises
    [UnboundLocalError]. *)
Theorem reaper_fetch_none (s : st G message) now tmo ids g1 g2 :
  timeout self = Some tmo ->
  gw_search [Flagged; Seen] (gw s) = (Return (Some ids), g1) ->
  gw_fetch (Some ids) [INTERNALDATE] g1 = (Return None, g2) ->
  reset_timeout_messages self now s =
    (Raise {| exn_cls := UnboundLocalError; exn_args := ["to_reset"] |},
     {| gw := g2;
        trace := trace s ++ [EvSearch [Flagged; Seen];
                             EvFetch (Some ids) [INTERNALDATE]] |}).
Proof.
  intros Ht Hs Hf. unfold reset_timeout_messages. rewrite Ht.
  unfold bind at 1. unfold client_search. rewrite Hs.
  unfold bind at 1. unfold client_fetch. cbn [gw trace]. rewrite Hf.
  cbn. now rewrite <- app_assoc.
Qed.

(** When the bulk fetch answers [None] instead of a mapping,
    [get_messages] returns it unnoticed and the cycle raises
    [AttributeError] on [messages.items()]: nothing is logged and no
    message is claimed. *)
Theorem process_messages_fetch_none (s0 s : st G message) now ids g1 g2 :
  reset_timeout_messages self now s0 = (Return tt, s) ->
  gw_search [Unseen; Unflagged] (gw s) = (Return ids, g1) ->
  gw_fetch ids [RFC822] g1 = (Return None, g2) ->
  process_messages message_from_string CALLBACKS_MAP self now s0 =
    (Raise {| exn_cls := AttributeError; exn_args := ["items"] |},
     {| gw := g2;
        trace := trace s ++ [EvSearch [Unseen; Unflagged];
                             EvFetch ids [RFC822]] |}).
Proof.
  intros Hr Hs Hf. unfold process_messages.
  rewrite (bind_return _ _ _ _ _ Hr).
  unfold bind at 1. unfold get_messages, get_message_ids, client_search.
  rewrite Hs. unfold try_except, client_fetch. cbn [gw trace]. rewrite Hf.
  cbn. now rewrite <- app_assoc.
Qed.
End EdgeAnswers.

Lemma reaper_missing_internaldate_witness :
  reset_timeout_messages (GW := scripted_gateway NestedReject)
    (message := string) Demo.timeout_10 (Demo.clock 100)
    {| gw := Demo.fetch_bare Demo.stuck_box; trace := [] |}
  = (Raise {| exn_cls := KeyError; exn_args := ["INTERNALDATE"] |},
     {| gw := Demo.fetch_bare Demo.stuck_box;
        trace := [EvSearch [Flagged; Seen];
                  EvFetch (Some [1; 2]%Z) [INTERNALDATE]] |}).
Proof.
  apply (reaper_missing_internaldate (GW := scripted_gateway NestedReject)
           Demo.timeout_10
           {| gw := Demo.fetch_bare Demo.stuck_box; trace := [] |}
           (Demo.clock 100) 10 [1; 2]%Z (Demo.fetch_bare Demo.stuck_box)
           [(1%Z, {| f_rfc822 := None; f_internaldate := None |})]
           (Demo.fetch_bare Demo.stuck_box));
    reflexivity.
Defined.

Lemma reaper_fetch_none_witness :
  reset_timeout_messages (GW := scripted_gateway NestedReject)
    (message := string) Demo.timeout_10 (Demo.clock 100)
    {| gw := Demo.fetch_none Demo.stuck_box; trace := [] |}
  = (Raise {| exn_cls := UnboundLocalError; exn_args := ["to_reset"] |},
     {| gw := Demo.fetch_none Demo.stuck_box;
        trace := [EvSearch [Flagged; Seen];
                  EvFetch (Some [1; 2]%Z) [INTERNALDATE]] |}).
Proof.
  apply (reaper_fetch_none (GW := scripted_gateway NestedReject)
           Demo.timeout_10
           {| gw := Demo.fetch_none Demo.stuck_box; trace := [] |}
           (Demo.clock 100) 10 [1; 2]%Z (Demo.fetch_none Demo.stuck_box)
           (Demo.fetch_none Demo.stuck_box));
    reflexivity.
Defined.

Lemma process_messages_fetch_none_witness :
  process_messages (GW := scripted_gateway NestedReject)
    Demo.parse [(Demo.cb_all, tt)] Demo.no_timeout 100
    {| gw := Demo.fetch_none Demo.boom_box; trace := [] |}
  = (Raise {| exn_cls := AttributeError; exn_args := ["items"] |},
     {| gw := Demo.fetch_none Demo.boom_box;
        trace := [EvSearch [Unseen; Unflagged];
                  EvFetch (Some [1; 2]%Z) [RFC822]] |}).
Proof.
  apply (process_messages_fetch_none (GW := scripted_gateway NestedReject)
           Demo.parse [(Demo.cb_all, tt)] Demo.no_timeout
           {| gw := Demo.fetch_none Demo.boom_box; trace := [] |}
           {| gw := Demo.fetch_none Demo.boom_box; trace := [] |}
           100 (Some [1; 2]%Z) (Demo.fetch_none Demo.boom_box)
           (Demo.fetch_none Demo.boom_box));
    reflexivity.
Defined.

Lemma dispatch_triggers_exactly_matching_witness :
  triggered
    (dispatch_events (Some "fine")
       [(Demo.cb_never, tt); (Demo.cb_boom, tt); (Demo.cb_all, tt)])
  = [1%nat; 0%nat].
Proof.
  apply (proj2 (dispatch_triggers_exactly_matching (G := mailbox)
                  (Some "fine")
                  [(Demo.cb_never, tt); (Demo.cb_boom, tt); (Demo.cb_all, tt)]
                  {| gw := []; trace := [] |} eq_refl)).
Defined.

Lemma dispatch_stops_at_first_failure_witness :
  for_each [(Demo.cb_all, tt); (Demo.cb_boom, tt); (Demo.cb_never, tt)]
    (fun '(cb, r) => process_message (G := mailbox) (Some "boom") cb r)
    {| gw := []; trace := [] |}
  = (Raise {| exn_cls := CallbackError; exn_args := ["boom"] |},
     {| gw := [];
        trace := [EvCheckRules 0 (Some "boom"); EvTrigger 0 (Some "boom");
                  EvCheckRules 1 (Some "boom");
                  EvTrigger 1 (Some "boom")] |}).
Proof.
  apply (dispatch_stops_at_first_failure (G := mailbox) (Some "boom")
           [(Demo.cb_all, tt)] [(Demo.cb_never, tt)] (Demo.cb_boom, tt)
           {| exn_cls := CallbackError; exn_args := ["boom"] |}
           {| gw := []; trace := [] |});
    reflexivity.
Defined.

(** ** Relations kept by the methods on the in-memory mailbox *)

Section Keeps.
Variable p : nested_policy.
Context {message rules : Type}.
Variable message_from_string : string -> outcome message.
Variable CALLBACKS_MAP : list (callback_class message rules * rules).
Variable self : MailBot.

#[local] Hint Extern 0 (Gateway mailbox) =>
  exact (mailbox_gateway p) : typeclass_instances.

(** A preorder on mailboxes that every flag write on an allowed id list
    respects. *)
Variable R : mailbox -> mailbox -> Prop.
Variable allowed : list uid -> Prop.
Hypothesis R_refl : forall mb, R mb mb.
Hypothesis R_trans : forall a b c, R a b -> R b c -> R a c.
Hypothesis R_store :
  forall b l fl mb, allowed l -> R mb (mb_store b l fl mb).

Lemma keeps_ret {A} (a : A) : keeps (message := message) R (ret a).
Proof. intros s. apply R_refl. Qed.

Lemma keeps_raise {A} e : keeps (message := message) (A := A) R (raise e).
Proof. intros s. apply R_refl. Qed.

Lemma keeps_lift {A} (o : outcome A) : keeps (message := message) R (lift o).
Proof. intros s. apply R_refl. Qed.

Lemma keeps_emit ev : keeps (message := message) R (emit ev).
Proof. intros s. apply R_refl. Qed.

Lemma keeps_bind {A B} (m : M mailbox message A)
      (k : A -> M mailbox message B) :
  keeps R m -> (forall a, keeps R (k a)) -> keeps R (bind m k).
Proof.
  intros Hm Hk s. unfold bind. specialize (Hm s).
  destruct (m s) as [[a|e] s1]; simpl in *.
  - eapply R_trans; [exact Hm | apply Hk].
  - exact Hm.
Qed.

Lemma keeps_try_except {A} (m : M mailbox message A) h :
  keeps R m -> (forall e, keeps R (h e)) -> keeps R (try_except m h).
Proof.
  intros Hm Hh s. unfold try_except. specialize (Hm s).
  destruct (m s) as [[a|e] s1]; simpl in *.
  - exact Hm.
  - eapply R_trans; [exact Hm | apply Hh].
Qed.

Lemma keeps_for_each {A} (l : list A) (body : A -> M mailbox message unit) :
  (forall x, In x l -> keeps R (body x)) -> keeps R (for_each l body).
Proof.
  induction l as [|x l IH]; intros Hb; simpl.
  - apply keeps_ret.
  - apply keeps_bind; [apply Hb; now left|].
    intros _. apply IH. intros y Hy. apply Hb. now right.
Qed.

Lemma keeps_flags (b : bool) ids fl mb :
  (forall l, resolve p ids = Some l -> allowed l) ->
  R mb (snd (mb_flags p b ids fl mb)).
Proof.
  intros Hok. unfold mb_flags. destruct (resolve p ids) as [l|]; simpl.
  - apply R_store. now apply Hok.
  - apply R_refl.
Qed.

Lemma keeps_add_flags ids fl :
  (forall l, resolve p ids = Some l -> allowed l) ->
  keeps (message := message) R (client_add_flags ids fl).
Proof.
  intros Hok s. unfold client_add_flags. simpl.
  pose proof (keeps_flags true ids fl (gw s) Hok) as H.
  destruct (mb_flags p true ids fl (gw s)). exact H.
Qed.

Lemma keeps_remove_flags ids fl :
  (forall l, resolve p ids = Some l -> allowed l) ->
  keeps (message := message) R (client_remove_flags ids fl).
Proof.
  intros Hok s. unfold client_remove_flags. simpl.
  pose proof (keeps_flags false ids fl (gw s) Hok) as H.
  destruct (mb_flags p false ids fl (gw s)). exact H.
Qed.

Lemma keeps_mark (o : mark) a :
  (forall l, resolve p [a] = Some l -> allowed l) ->
  keeps (message := message) R (apply_mark o a).
Proof.
  intros Hok. destruct o; simpl.
  - now apply keeps_add_flags.
  - apply keeps_bind; [now apply keeps_remove_flags|].
    intros _. now apply keeps_add_flags.
  - now apply keeps_remove_flags.
Qed.

Lemma keeps_process_message (m : option message)
      (cb : callback_class message rules) (r : rules) :
  keeps R (process_message m cb r).
Proof.
  unfold process_message.
  apply keeps_bind; [apply keeps_emit | intros _].
  apply keeps_bind; [apply keeps_lift | intros b].
  destruct b; [|apply keeps_ret].
  apply keeps_bind; [apply keeps_emit | intros _; apply keeps_lift].
Qed.

Lemma keeps_getitem {A} key (v : option A) :
  keeps (message := message) R (getitem key v).
Proof. destruct v; [apply keeps_ret | apply keeps_raise]. Qed.

Lemma keeps_process_one u d :
  allowed [u] ->
  keeps R (process_one message_from_string CALLBACKS_MAP (u, d)).
Proof.
  intros Hu.
  assert (Hok : forall l, resolve p [OneUid u] = Some l -> allowed l).
  { intros l H. simpl in H. inversion H. exact Hu. }
  unfold process_one. apply keeps_bind.
  { apply keeps_try_except.
    - unfold claim_and_parse.
      apply keeps_bind; [apply (keeps_mark MarkProcessing _ Hok) | intros _].
      apply keeps_bind; [apply keeps_getitem | intros raw].
      apply keeps_bind; [apply keeps_lift | intros m].
      apply keeps_bind; [apply keeps_emit | intros _; apply keeps_ret].
    - intros e. unfold parse_failed.
      apply keeps_bind; [apply keeps_emit | intros _].
      apply keeps_bind; [apply (keeps_mark MarkUnseen _ Hok) |].
      intros _; apply keeps_ret. }
  intros m. apply keeps_bind.
  { apply keeps_for_each. intros [cb r] _. apply keeps_process_message. }
  intros _. destruct m; [apply (keeps_mark MarkProcessed _ Hok) | apply keeps_ret].
Qed.

Lemma keeps_expired pivot ms :
  keeps (message := message) R (expired pivot ms).
Proof.
  induction ms as [|[u d] ms IH]; simpl.
  - apply keeps_ret.
  - apply keeps_bind; [apply keeps_getitem | intros t].
    apply keeps_bind; [exact IH | intros r; apply keeps_ret].
Qed.

Lemma keeps_search c : keeps (message := message) R (client_search c).
Proof. intros s. apply R_refl. Qed.

Lemma keeps_fetch ids f : keeps (message := message) R (client_fetch ids f).
Proof. intros s. apply R_refl. Qed.

Lemma keeps_reset_timeout_messages now :
  (forall l, allowed l) ->
  keeps (message := message) R (reset_timeout_messages self now).
Proof.
  intros Hall. unfold reset_timeout_messages.
  destruct (timeout self) as [tmo|]; [|apply keeps_ret].
  apply keeps_bind; [apply keeps_search | intros ids].
  apply keeps_bind.
  { destruct ids; [apply keeps_fetch | apply keeps_ret]. }
  intros ms. apply keeps_bind.
  { destruct ms; [|apply keeps_ret].
    apply keeps_bind; [apply keeps_lift | intros pv].
    apply keeps_bind; [apply keeps_expired | intros l; apply keeps_ret]. }
  intros tr. apply keeps_bind.
  { destruct tr; [apply keeps_ret | apply keeps_raise]. }
  intros l. destruct l; [apply keeps_ret|].
  apply (keeps_mark MarkUnseen). intros; apply Hall.
Qed.

Lemma keeps_get_messages : keeps (message := message) R get_messages.
Proof.
  assert (Hx : forall e ids,
             keeps (message := message) R (get_messages_except e ids)).
  { intros e ids. unfold get_messages_except.
    apply keeps_bind.
    { destruct ids; [apply keeps_ret | apply keeps_raise]. }
    intros v. apply keeps_bind; [apply keeps_emit | intros _; apply keeps_raise]. }
  intros s. unfold get_messages, get_message_ids.
  pose proof (keeps_search [Unseen; Unflagged] s) as H1.
  destruct (client_search [Unseen; Unflagged] s) as [[ids|e] s1]; simpl in H1.
  - eapply R_trans; [exact H1|].
    apply keeps_try_except; [apply keeps_fetch | intros e; apply Hx].
  - eapply R_trans; [exact H1 | apply Hx].
Qed.

Lemma keeps_process_messages now :
  (forall l, allowed l) ->
  keeps R (process_messages message_from_string CALLBACKS_MAP self now).
Proof.
  intros Hall. unfold process_messages.
  apply keeps_bind; [now apply keeps_reset_timeout_messages | intros _].
  apply keeps_bind; [apply keeps_get_messages | intros ms].
  apply keeps_bind.
  { destruct ms; [apply keeps_ret | apply keeps_raise]. }
  intros l. apply keeps_for_each. intros [u d] _.
  apply keeps_process_one. apply Hall.
Qed.
End Keeps.

(** ** What the flag operations and the cycle change *)

Lemma same_content_refl mb : same_content mb mb.
Proof.
  unfold same_content. rewrite <- (map_id mb) at 2.
  apply Forall2_map_same. auto.
Qed.

Lemma same_content_trans a b c :
  same_content a b -> same_content b c -> same_content a c.
Proof.
  unfold same_content. intros H. revert c.
  induction H as [|x y l1 l2 [H1 [H2 H3]] _ IH]; intros c Hc;
    inversion Hc as [|y' z l2' l3 [H4 [H5 H6]] Hr]; subst; constructor.
  - repeat split; congruence.
  - now apply IH.
Qed.

Lemma same_content_store b l fl mb : same_content mb (mb_store b l fl mb).
Proof.
  apply Forall2_map_same. intros m.
  destruct (mem (m_uid m) l); [|auto].
  rewrite set_flags_spec. simpl. auto.
Qed.

Lemma only_touches_refl us mb : only_touches us mb mb.
Proof.
  unfold only_touches. rewrite <- (map_id mb) at 2.
  apply Forall2_map_same. auto.
Qed.

Lemma only_touches_trans us a b c :
  only_touches us a b -> only_touches us b c -> only_touches us a c.
Proof.
  unfold only_touches. intros H. revert c.
  induction H as [|x y l1 l2 [H1 H2] _ IH]; intros c Hc;
    inversion Hc as [|y' z l2' l3 [H3 H4] Hr]; subst; constructor.
  - split; [congruence|]. intros Hm.
    rewrite <- (H2 Hm). apply H4. now rewrite H1.
  - now apply IH.
Qed.

Lemma only_touches_store us b l fl mb :
  (forall x, In x l -> mem x us = true) ->
  only_touches us mb (mb_store b l fl mb).
Proof.
  intros Hl. apply Forall2_map_same. intros m.
  destruct (mem (m_uid m) l) eqn:E.
  - split; [apply set_flags_uid|]. intros Hm.
    apply mem_In in E. apply Hl in E. congruence.
  - auto.
Qed.

(** With unique ids, a message is found by a search exactly when it
    satisfies the criteria. *)
Lemma found_distinct (P : mail -> bool) mb m :
  distinct (map m_uid mb) = true -> In m mb ->
  mem (m_uid m) (map m_uid (filter P mb)) = P m.
Proof.
  intros Hd Hm. destruct (P m) eqn:E.
  - apply mem_In. apply in_map. apply filter_In. auto.
  - destruct (mem (m_uid m) (map m_uid (filter P mb))) eqn:F; [|reflexivity].
    apply mem_In in F. apply in_map_iff in F. destruct F as [m' [Hu Hin]].
    apply filter_In in Hin. destruct Hin as [Hin Hp].
    rewrite (distinct_inj mb m m' Hd Hm Hin (eq_sym Hu)) in E. congruence.
Qed.

Lemma fetched_found_distinct (P : mail -> bool) mb :
  distinct (map m_uid mb) = true ->
  filter (fun m => mem (m_uid m) (map m_uid (filter P mb))) mb = filter P mb.
Proof.
  intros Hd. apply filter_ext_in. intros m Hm. now apply found_distinct.
Qed.

Lemma search_unprocessed mb :
  mb_search [Unseen; Unflagged] mb = map m_uid (filter unprocessed_b mb).
Proof.
  unfold mb_search. f_equal. apply filter_ext. intros m.
  unfold unprocessed_b. simpl. now rewrite andb_true_r.
Qed.

Lemma only_touches_untouched us (Q : mail -> Prop) mb mb' :
  only_touches us mb mb' ->
  (forall m, In m mb -> Q m -> mem (m_uid m) us = false) ->
  Forall2 (fun m m' => Q m -> m' = m) mb mb'.
Proof.
  unfold only_touches. intros T.
  induction T as [|x y l1 l2 [H1 H2] _ IH]; intros F; constructor.
  - intros Hq. apply H2. apply F; [now left | exact Hq].
  - apply IH. intros m Hm. apply F. now right.
Qed.

Section Touches.
Variable p : nested_policy.
Context {message rules : Type}.
Variable message_from_string : string -> outcome message.
Variable CALLBACKS_MAP : list (callback_class message rules * rules).

#[local] Hint Extern 0 (Gateway mailbox) =>
  exact (mailbox_gateway p) : typeclass_instances.

Lemma get_messages_run (s : st mailbox message) :
  get_messages s =
    (Return (Some (mb_fetch (Some (mb_search [Unseen; Unflagged] (gw s)))
                            [RFC822] (gw s))),
     {| gw := gw s;
        trace := trace s ++
                 [EvSearch [Unseen; Unflagged];
                  EvFetch (Some (mb_search [Unseen; Unflagged] (gw s)))
                          [RFC822]] |}).
Proof.
  unfold get_messages, get_message_ids, client_search, try_except,
    client_fetch.
  simpl. now rewrite <- app_assoc.
Qed.

Lemma get_messages_run_distinct (s : st mailbox message) :
  distinct (map m_uid (gw s)) = true ->
  get_messages s =
    (Return (Some (map candidate (filter unprocessed_b (gw s)))),
     {| gw := gw s;
        trace := trace s ++
                 [EvSearch [Unseen; Unflagged];
                  EvFetch (Some (map m_uid (filter unprocessed_b (gw s))))
                          [RFC822]] |}).
Proof.
  intros Hd. rewrite get_messages_run, search_unprocessed.
  unfold mb_fetch. rewrite (fetched_found_distinct _ _ Hd). reflexivity.
Qed.

(** With unique ids, [get_messages] returns the Unprocessed messages, and
    only those, each with its id and raw payload, in mailbox order; it
    changes no flag and logs nothing. *)
Theorem get_messages_returns_unprocessed (s : st mailbox message) :
  distinct (map m_uid (gw s)) = true ->
  get_messages s =
    (Return (Some (map candidate (filter unprocessed_b (gw s)))),
     {| gw := gw s;
        trace := trace s ++
                 [EvSearch [Unseen; Unflagged];
                  EvFetch (Some (map m_uid (filter unprocessed_b (gw s))))
                          [RFC822]] |}).
Proof. apply get_messages_run_distinct. Qed.

(** The flags an operation writes do not depend on the flags it finds:
    on a single id it puts the messages of that id in its target state
    and leaves the others alone; and after any operation on an argument,
    applying a second operation to the same argument gives the mailbox
    the second alone gives.  In particular each of the three is
    idempotent. *)
Theorem last_mark_wins (mb : mailbox) :
  (forall o u,
      exec (message := message) (apply_mark o (OneUid u)) mb
      = map (fun m => if (m_uid m =? u)%Z then target o m else m) mb) /\
  (forall o1 o2 a,
      exec (message := message) (apply_mark o2 a)
        (exec (message := message) (apply_mark o1 a) mb)
      = exec (message := message) (apply_mark o2 a) mb).
Proof.
  assert (K : forall o a (mb0 : mailbox),
             exec (message := message) (apply_mark o a) mb0
             = match resolve p [a] with
               | Some l =>
                   map (fun m => if mem (m_uid m) l then target o m else m) mb0
               | None => mb0
               end).
  { intros o a mb0. unfold exec, run.
    destruct o; cbn [apply_mark];
      unfold mark_processing, mark_processed, mark_unseen,
        bind, client_add_flags, client_remove_flags;
      cbn [gw trace gw_add_flags gw_remove_flags mailbox_gateway];
      unfold mb_flags; destruct (resolve p [a]) as [l|];
      cbn [gw trace snd fst]; try reflexivity.
    unfold mb_store. rewrite map_map. apply map_ext. intros m.
    destruct (mem (m_uid m) l) eqn:E; cbv iota.
    - rewrite set_flags_uid, E. reflexivity.
    - rewrite E. reflexivity. }
  split.
  - intros o u. rewrite K. simpl. apply map_ext. intros m.
    now rewrite orb_false_r.
  - intros o1 o2 a. rewrite !K. destruct (resolve p [a]) as [l|]; [|reflexivity].
    rewrite map_map. apply map_ext. intros m.
    destruct (mem (m_uid m) l) eqn:E.
    + assert (U : m_uid (target o1 m) = m_uid m) by (destruct o1; reflexivity).
      rewrite U, E. destruct o1, o2; reflexivity.
    + rewrite E. reflexivity.
Qed.

(** A cycle rewrites flags and nothing else: whatever the parser, the
    callbacks, the timeout and the clock do, and whether the cycle
    returns or raises, the mailbox holds the same messages in the same
    order with the same ids, payloads and arrival times.  The same holds
    of the reaper alone. *)
Theorem cycle_changes_flags_only self now :
  keeps same_content
    (process_messages message_from_string CALLBACKS_MAP self now) /\
  keeps (message := message) same_content (reset_timeout_messages self now).
Proof.
  split.
  - apply (keeps_process_messages p message_from_string CALLBACKS_MAP self
             same_content (fun _ => True)); auto.
    + apply same_content_refl.
    + apply same_content_trans.
    + intros. apply same_content_store.
  - apply (keeps_reset_timeout_messages p self same_content (fun _ => True));
      auto.
    + apply same_content_refl.
    + apply same_content_trans.
    + intros. apply same_content_store.
Qed.

(** Without a timeout, a cycle touches only the messages it found
    Unprocessed: with unique ids, every message that is in another state
    when the cycle starts is exactly as it was when the cycle ends,
    whether the cycle returns or raises.  In particular a message in
    Processing is never reset, however old it is. *)
Theorem cycle_without_timeout_touches_candidates_only now (mb : mailbox) :
  distinct (map m_uid mb) = true ->
  Forall2 (fun m m' => unprocessed_b m = false -> m' = m)
    mb
    (exec (process_messages message_from_string CALLBACKS_MAP
             {| timeout := None |} now) mb).
Proof.
  intros Hd.
  set (us := mb_search [Unseen; Unflagged] mb).
  assert (T : only_touches us mb
                (exec (process_messages message_from_string CALLBACKS_MAP
                         {| timeout := None |} now) mb)).
  { unfold exec, run, process_messages.
    unfold bind at 1. unfold reset_timeout_messages. cbn [timeout].
    unfold ret at 1. unfold bind at 1. rewrite get_messages_run.
    cbn [gw trace]. unfold bind at 1. unfold items, ret at 1.
    fold us.
    match goal with
    | |- only_touches us mb (gw (snd (for_each ?l ?body ?s0))) =>
        change mb with (gw s0) at 1;
        apply (keeps_for_each (only_touches us)
                 (only_touches_refl us) (only_touches_trans us) l body)
    end.
    intros [u d] Hin.
    apply (keeps_process_one p message_from_string CALLBACKS_MAP
             (only_touches us)
             (fun l => forall x, In x l -> mem x us = true)
             (only_touches_refl us) (only_touches_trans us)
             (only_touches_store us)).
    intros x [<-|[]]. unfold mb_fetch in Hin.
      apply in_map_iff in Hin. destruct Hin as [m [Hm Hin]].
      inversion Hm; subst. apply filter_In in Hin. tauto. }
  assert (F : forall m, In m mb -> unprocessed_b m = false ->
                        mem (m_uid m) us = false).
  { intros m Hm Hu. unfold us. rewrite search_unprocessed.
    now rewrite (found_distinct _ _ _ Hd Hm). }
  exact (only_touches_untouched us (fun m => unprocessed_b m = false)
           mb _ T F).
Qed.
End Touches.

(** ** The outcome of a cycle in which nothing raises *)

Lemma mb_store_one b u fl mb :
  mb_store b [u] fl mb
  = map (fun m => if (m_uid m =? u)%Z then set_flags b fl m else m) mb.
Proof.
  unfold mb_store. apply map_ext. intros m. simpl.
  now rewrite orb_false_r.
Qed.

Lemma map_on_uid (f1 f2 : mail -> mail) u mb :
  (forall m, m_uid (f1 m) = m_uid m) ->
  map (fun m => if (m_uid m =? u)%Z then f2 m else m)
      (map (fun m => if (m_uid m =? u)%Z then f1 m else m) mb)
  = map (fun m => if (m_uid m =? u)%Z then f2 (f1 m) else m) mb.
Proof.
  intros Hu. rewrite map_map. apply map_ext. intros m.
  destruct (m_uid m =? u)%Z eqn:E.
  - now rewrite Hu, E.
  - now rewrite E.
Qed.

Lemma fold_settle_map {message} (parse : string -> outcome message) C mb :
  fold_left (fun b m0 => map (settle parse m0) b) C mb
  = map (fun m => fold_left (fun x m0 => settle parse m0 x) C m) mb.
Proof.
  revert mb. induction C as [|c C IH]; intros mb; simpl.
  - symmetry. apply map_id.
  - rewrite IH, map_map. reflexivity.
Qed.

Lemma settle_uid {message} (parse : string -> outcome message) m0 m :
  m_uid (settle parse m0 m) = m_uid m.
Proof.
  unfold settle. destruct (m_uid m =? m_uid m0)%Z; [|reflexivity].
  destruct (parses parse m0); reflexivity.
Qed.

Lemma fold_settle_one {message} (parse : string -> outcome message) m C :
  (forall c, In c C -> m_uid c = m_uid m -> parses parse c = parses parse m) ->
  forall x, m_uid x = m_uid m ->
  fold_left (fun x m0 => settle parse m0 x) C x
  = if mem (m_uid m) (map m_uid C)
    then (if parses parse m then with_flags true false x
          else with_flags false false x)
    else x.
Proof.
  induction C as [|c C IH]; intros Hc x Hx; [reflexivity|].
  simpl fold_left. rewrite IH.
  - simpl map.
    change (mem (m_uid m) (m_uid c :: map m_uid C))
      with ((m_uid m =? m_uid c)%Z || mem (m_uid m) (map m_uid C)).
    unfold settle. rewrite Hx.
    destruct (m_uid m =? m_uid c)%Z eqn:E; simpl.
    + apply Z.eqb_eq in E. rewrite (Hc c (or_introl eq_refl) (eq_sym E)).
      destruct (mem (m_uid m) (map m_uid C)), (parses parse m); reflexivity.
    + reflexivity.
  - intros c' Hin. apply Hc. now right.
  - now rewrite settle_uid.
Qed.

Section Outcome.
Variable p : nested_policy.
Context {message rules : Type}.
Variable message_from_string : string -> outcome message.
Variable CALLBACKS_MAP : list (callback_class message rules * rules).

#[local] Hint Extern 0 (Gateway mailbox) =>
  exact (mailbox_gateway p) : typeclass_instances.

Lemma process_one_quiet (m0 : mail) (s : st mailbox message) :
  quiet (parsed message_from_string m0) CALLBACKS_MAP = true ->
  exists s',
    process_one message_from_string CALLBACKS_MAP (candidate m0) s
    = (Return tt, s') /\
    gw s' = map (settle message_from_string m0) (gw s).
Proof.
  unfold parsed, settle, parses. intros Hq.
  destruct (message_from_string (m_raw m0)) as [x|e] eqn:P.
  - eexists. split.
    + unfold process_one, candidate.
      unfold bind at 1. unfold try_except, claim_and_parse.
      rewrite (bind_return _ _ _ _ _ (mark_processing_run p (m_uid m0) s)).
      unfold bind at 1. cbn [getitem f_rfc822]. unfold ret at 1.
      unfold bind at 1. unfold lift. rewrite P.
      unfold bind at 1. unfold log_info, emit. unfold ret at 1.
      rewrite (bind_return _ _ _ _ _
                 (dispatch_quiet_run (Some x) CALLBACKS_MAP _ Hq)).
      rewrite mark_processed_run. reflexivity.
    + cbn [gw]. rewrite !mb_store_one.
      rewrite map_on_uid by (intros; apply set_flags_uid).
      rewrite map_on_uid by (intros; apply set_flags_uid).
      apply map_ext. intros m.
      destruct (m_uid m =? m_uid m0)%Z; reflexivity.
  - eexists. split.
    + unfold candidate.
      rewrite (process_one_parse_failure p message_from_string CALLBACKS_MAP
                 (m_uid m0)
                 {| f_rfc822 := Some (m_raw m0); f_internaldate := None |}
                 (m_raw m0) e s eq_refl P).
      rewrite (dispatch_quiet_run None CALLBACKS_MAP _ Hq). reflexivity.
    + cbn [gw]. rewrite !mb_store_one.
      rewrite map_on_uid by (intros; apply set_flags_uid).
      apply map_ext. intros m.
      destruct (m_uid m =? m_uid m0)%Z; reflexivity.
Qed.

Lemma loop_quiet C (s : st mailbox message) :
  forallb (fun m => quiet (parsed message_from_string m) CALLBACKS_MAP) C
  = true ->
  exists s',
    for_each (map candidate C)
      (process_one message_from_string CALLBACKS_MAP) s = (Return tt, s') /\
    gw s'
    = fold_left (fun b m0 => map (settle message_from_string m0) b) C (gw s).
Proof.
  revert s. induction C as [|c C IH]; intros s Hq.
  - exists s. simpl. auto.
  - simpl in Hq. apply andb_prop in Hq. destruct Hq as [Hc Hq].
    destruct (process_one_quiet c s Hc) as [s1 [H1 H2]].
    destruct (IH s1 Hq) as [s2 [H3 H4]].
    exists s2. split.
    + simpl map. simpl for_each. now rewrite (bind_return _ _ _ _ _ H1).
    + rewrite H4, H2. reflexivity.
Qed.

Lemma quiet_cycle_run self now (s s1 : st mailbox message) :
  reset_timeout_messages self now s = (Return tt, s1) ->
  distinct (map m_uid (gw s1)) = true ->
  forallb (fun m => quiet (parsed message_from_string m) CALLBACKS_MAP)
          (filter unprocessed_b (gw s1)) = true ->
  fst (process_messages message_from_string CALLBACKS_MAP self now s)
  = Return tt /\
  gw (snd (process_messages message_from_string CALLBACKS_MAP self now s))
  = map (fun m => if unprocessed_b m && parses message_from_string m
                  then as_processed m else m) (gw s1).
Proof.
  intros Hr Hd Hq.
  match type of Hr with _ = (_, ?s1') => set (s2 :=
    {| gw := gw s1';
       trace := trace s1' ++
                [EvSearch [Unseen; Unflagged];
                 EvFetch (Some (map m_uid (filter unprocessed_b (gw s1'))))
                         [RFC822]] |}) end.
  destruct (loop_quiet (filter unprocessed_b (gw s1)) s2 Hq) as [s3 [H1 H2]].
  assert (E : process_messages message_from_string CALLBACKS_MAP self now s
              = (Return tt, s3)).
  { unfold process_messages.
    rewrite (bind_return _ _ _ _ _ Hr).
    rewrite (bind_return _ _ _ _ _ (get_messages_run_distinct p s1 Hd)).
    unfold items. unfold bind at 1. unfold ret at 1. exact H1. }
  rewrite E. split; [reflexivity|]. cbn [snd]. rewrite H2. cbn [gw s2].
  rewrite fold_settle_map. apply map_ext_in. intros m Hm.
  rewrite (fold_settle_one message_from_string m).
  - rewrite (found_distinct unprocessed_b _ _ Hd Hm).
    destruct (unprocessed_b m) eqn:U; [|reflexivity].
    destruct (parses message_from_string m); [reflexivity|].
    unfold unprocessed_b in U. destruct m as [u r t [|] [|]];
      try discriminate; reflexivity.
  - intros c Hc Hu. apply filter_In in Hc. destruct Hc as [Hc _].
    now rewrite (distinct_inj _ c m Hd Hc Hm Hu).
  - reflexivity.
Qed.

(** The functional outcome of a cycle in which no callback raises.  Let
    the reaper have returned, with unique ids in the mailbox it leaves.
    If no registered callback raises on any candidate (on its parsed
    message or, when its payload does not parse, on [None]), the cycle
    returns normally; every Unprocessed message whose payload parses ends
    Processed, whether or not a callback matched it, and every other
    message has the flags the reaper left it. *)
Theorem cycle_outcome self now (s s1 : st mailbox message) :
  reset_timeout_messages self now s = (Return tt, s1) ->
  distinct (map m_uid (gw s1)) = true ->
  forallb (fun m => quiet (parsed message_from_string m) CALLBACKS_MAP)
          (filter unprocessed_b (gw s1)) = true ->
  fst (process_messages message_from_string CALLBACKS_MAP self now s)
  = Return tt /\
  gw (snd (process_messages message_from_string CALLBACKS_MAP self now s))
  = map (fun m => if unprocessed_b m && parses message_from_string m
                  then as_processed m else m) (gw s1).
Proof. apply quiet_cycle_run. Qed.

(** Without a timeout, a cycle in which no callback raises settles the
    mailbox: a second cycle right after it leaves the mailbox as the
    first left it.  The messages the first cycle marked Processed are not
    candidates again. *)
Theorem quiet_cycle_twice now now' (mb : mailbox) :
  distinct (map m_uid mb) = true ->
  forallb (fun m => quiet (parsed message_from_string m) CALLBACKS_MAP)
          (filter unprocessed_b mb) = true ->
  exec (process_messages message_from_string CALLBACKS_MAP
          {| timeout := None |} now')
       (exec (process_messages message_from_string CALLBACKS_MAP
                {| timeout := None |} now) mb)
  = exec (process_messages message_from_string CALLBACKS_MAP
            {| timeout := None |} now) mb.
Proof.
  intros Hd Hq.
  set (F := fun m => if unprocessed_b m && parses message_from_string m
                     then as_processed m else m).
  assert (E : forall n (mb0 : mailbox),
             distinct (map m_uid mb0) = true ->
             forallb (fun m => quiet (parsed message_from_string m)
                                 CALLBACKS_MAP)
                     (filter unprocessed_b mb0) = true ->
             exec (process_messages message_from_string CALLBACKS_MAP
                     {| timeout := None |} n) mb0 = map F mb0).
  { intros n mb0 Hd0 Hq0. unfold exec, run.
    apply (proj2 (quiet_cycle_run {| timeout := None |} n
                    {| gw := mb0; trace := [] |}
                    {| gw := mb0; trace := [] |} eq_refl Hd0 Hq0)). }
  assert (FU : forall m, m_uid (F m) = m_uid m).
  { intros m. unfold F.
    destruct (unprocessed_b m && parses message_from_string m); reflexivity. }
  assert (FF : forall m, F (F m) = F m).
  { intros m. unfold F.
    destruct (unprocessed_b m && parses message_from_string m) eqn:B;
      [reflexivity | now rewrite B]. }
  rewrite (E now mb Hd Hq). rewrite E.
  - rewrite map_map. apply map_ext. exact FF.
  - rewrite map_map. rewrite (map_ext _ m_uid FU). exact Hd.
  - apply forallb_forall. intros x Hx.
    apply filter_In in Hx. destruct Hx as [Hx Hu].
    apply in_map_iff in Hx. destruct Hx as [m [<- Hm]].
    assert (Fm : F m = m).
    { unfold F in *.
      destruct (unprocessed_b m && parses message_from_string m);
        [discriminate Hu | reflexivity]. }
    rewrite Fm in *. rewrite forallb_forall in Hq. apply Hq.
    apply filter_In. auto.
Qed.
End Outcome.

(** ** An iteration whose payload cannot be obtained, for any gateway *)

Section PayloadFailure.
Context {G : Type} {GW : Gateway G} {message rules : Type}.
Variable message_from_string : string -> outcome message.
Variable CALLBACKS_MAP : list (callback_class message rules * rules).

Lemma claim_and_parse_payload_error u d e (s : st G message) g1 :
  payload_error message_from_string d = Some e ->
  gw_add_flags [OneUid u] [F_Flagged; F_Seen] (gw s) = (Return tt, g1) ->
  claim_and_parse message_from_string u d s =
    (Raise e,
     {| gw := g1;
        trace := trace s ++ [EvAddFlags [OneUid u] [F_Flagged; F_Seen]] |}).
Proof.
  unfold payload_error. intros He Ha.
  unfold claim_and_parse, mark_processing.
  unfold bind at 1. unfold client_add_flags. rewrite Ha.
  unfold bind at 1. unfold getitem.
  destruct (f_rfc822 d) as [raw|].
  - unfold ret at 1. unfold bind at 1. unfold lift.
    destruct (message_from_string raw) as [x|e']; [discriminate|].
    inversion He. reflexivity.
  - inversion He. reflexivity.
Qed.

(** When the fetched entry has no ['RFC822'] key or the parser raises,
    and the gateway accepts the two flag calls, the [except] clause takes
    over: the error is logged with its arguments, the entry and the id,
    and the claim is undone.  The message is not marked Processed; what
    follows is the dispatch on [None], and when no callback raises on
    [None] the iteration returns normally, so the loop goes on. *)
Theorem process_one_payload_failure u d e (s : st G message) g1 g2 :
  payload_error message_from_string d = Some e ->
  gw_add_flags [OneUid u] [F_Flagged; F_Seen] (gw s) = (Return tt, g1) ->
  gw_remove_flags [OneUid u] [F_Flagged; F_Seen] g1 = (Return tt, g2) ->
  quiet None CALLBACKS_MAP = true ->
  process_one message_from_string CALLBACKS_MAP (u, d) s =
    (Return tt,
     {| gw := g2;
        trace := trace s ++
          [EvAddFlags [OneUid u] [F_Flagged; F_Seen];
           EvLogError ("Error in process_messages: "
                       ++ str_args (exn_args e) ++ "
Message Raw: " ++ str_fetched d ++ "
uid: " ++ str_uid u);
           EvRemoveFlags [OneUid u] [F_Flagged; F_Seen]]
          ++ dispatch_events None CALLBACKS_MAP |}).
Proof.
  intros He Ha Hr Hq. unfold process_one.
  unfold bind at 1. unfold try_except.
  rewrite (claim_and_parse_payload_error u d e s g1 He Ha).
  unfold parse_failed. unfold bind at 1. unfold log_error, emit.
  unfold bind at 1. unfold mark_unseen, client_remove_flags.
  cbn [gw trace]. rewrite Hr. unfold ret at 1.
  rewrite (bind_return _ _ _ _ _
             (dispatch_quiet_run None CALLBACKS_MAP _ Hq)).
  unfold ret. cbn [gw trace]. rewrite <- !app_assoc. reflexivity.
Qed.
End PayloadFailure.

Lemma process_one_payload_failure_witness :
  process_one (GW := mailbox_gateway NestedReject) Demo.parse
    [(Demo.cb_never, tt)]
    (5%Z, {| f_rfc822 := None; f_internaldate := None |})
    {| gw := [Demo.unprocessed 5 "hello" 0]; trace := [] |}
  = (Return tt,
     {| gw := [Demo.unprocessed 5 "hello" 0];
        trace :=
          [EvAddFlags [OneUid 5] [F_Flagged; F_Seen];
           EvLogError "Error in process_messages: ('RFC822',)
Message Raw: {}
uid: 5";
           EvRemoveFlags [OneUid 5] [F_Flagged; F_Seen];
           EvCheckRules 3 None] |}).
Proof.
  apply (process_one_payload_failure (GW := mailbox_gateway NestedReject)
           Demo.parse [(Demo.cb_never, tt)] 5
           {| f_rfc822 := None; f_internaldate := None |}
           {| exn_cls := KeyError; exn_args := ["RFC822"] |}
           {| gw := [Demo.unprocessed 5 "hello" 0]; trace := [] |}
           [Demo.processing 5 "hello" 0] [Demo.unprocessed 5 "hello" 0]);
    reflexivity.
Defined.

Lemma get_messages_returns_unprocessed_witness :
  get_messages (GW := mailbox_gateway NestedReject) (message := string)
    {| gw := Demo.stuck_box; trace := [] |}
  = (Return (Some [(3%Z, {| f_rfc822 := Some "third";
                            f_internaldate := None |})]),
     {| gw := Demo.stuck_box;
        trace := [EvSearch [Unseen; Unflagged];
                  EvFetch (Some [3%Z]) [RFC822]] |}).
Proof.
  apply (get_messages_returns_unprocessed NestedReject
           {| gw := Demo.stuck_box; trace := @nil (event string) |}).
  reflexivity.
Defined.

Lemma cycle_without_timeout_touches_candidates_only_witness :
  Forall2 (fun m m' => unprocessed_b m = false -> m' = m)
    Demo.stuck_box
    (exec (process_messages (GW := mailbox_gateway NestedReject)
             Demo.parse [(Demo.cb_boom, tt)] {| timeout := None |} 100)
          Demo.stuck_box).
Proof.
  apply (cycle_without_timeout_touches_candidates_only NestedReject
           Demo.parse [(Demo.cb_boom, tt)] 100 Demo.stuck_box).
  reflexivity.
Defined.

Lemma cycle_outcome_witness :
  gw (snd (process_messages (GW := mailbox_gateway NestedReject)
             Demo.parse [(Demo.cb_never, tt); (Demo.cb_all, tt)]
             Demo.no_timeout 100
             {| gw := Demo.processing 9 "old" 0 :: Demo.garbage_box;
                trace := [] |}))
  = [Demo.processing 9 "old" 0; Demo.unprocessed 7 "garbage" 0;
     as_processed (Demo.unprocessed 8 "fine" 0)].
Proof.
  apply (proj2
           (cycle_outcome NestedReject Demo.parse
              [(Demo.cb_never, tt); (Demo.cb_all, tt)] Demo.no_timeout 100
              {| gw := Demo.processing 9 "old" 0 :: Demo.garbage_box;
                 trace := [] |}
              {| gw := Demo.processing 9 "old" 0 :: Demo.garbage_box;
                 trace := [] |}
              eq_refl eq_refl eq_refl)).
Defined.

Lemma quiet_cycle_twice_witness :
  exec (process_messages (GW := mailbox_gateway NestedReject)
          Demo.parse [(Demo.cb_never, tt); (Demo.cb_all, tt)]
          {| timeout := None |} 200)
       (exec (process_messages (GW := mailbox_gateway NestedReject)
                Demo.parse [(Demo.cb_never, tt); (Demo.cb_all, tt)]
                {| timeout := None |} 100) Demo.garbage_box)
  = exec (process_messages (GW := mailbox_gateway NestedReject)
            Demo.parse [(Demo.cb_never, tt); (Demo.cb_all, tt)]
            {| timeout := None |} 100) Demo.garbage_box.
Proof.
  apply (quiet_cycle_twice NestedReject Demo.parse
           [(Demo.cb_never, tt); (Demo.cb_all, tt)] 100 200
           Demo.garbage_box);
    reflexivity.
Defined.

(** ** A gateway failure inside the reaper, for any gateway *)

Section ReaperFailure.
Context {G : Type} {GW : Gateway G} {message rules : Type}.
Variable message_from_string : string -> outcome message.
Variable CALLBACKS_MAP : list (callback_class message rules * rules).
Variable self : MailBot.

Lemma expired_dated pv (ms : fetched_map) (s : st G message) :
  all_dated ms = true ->
  expired pv ms s = (Return (dated_before pv ms), s).
Proof.
  unfold all_dated, dated_before.
  induction ms as [|[u d] ms IH]; simpl; [reflexivity|].
  intros H. apply andb_prop in H. destruct H as [Hd H].
  unfold bind at 1. unfold getitem.
  destruct (f_internaldate d) as [t|]; [|discriminate].
  unfold ret at 1. unfold bind at 1. rewrite (IH H). unfold ret.
  now destruct (replace_tzinfo_none t <? pv)%Z.
Qed.

(** The flag removal of the reaper is not guarded: when some fetched
    entry is dated before the pivot and the gateway raises on the
    removal, the exception leaves [process_messages] right there.  The
    trace holds the two reads and the failed removal; the candidates of
    that cycle are never searched, fetched or dispatched. *)
Theorem reaper_failure_ends_cycle (s : st G message) now tmo pv
        ids g1 ms g2 u l e g3 :
  timeout self = Some tmo ->
  pivot now tmo = Return pv ->
  gw_search [Flagged; Seen] (gw s) = (Return (Some ids), g1) ->
  gw_fetch (Some ids) [INTERNALDATE] g1 = (Return (Some ms), g2) ->
  all_dated ms = true ->
  dated_before pv ms = u :: l ->
  gw_remove_flags [UidList (u :: l)] [F_Flagged; F_Seen] g2 = (Raise e, g3) ->
  process_messages message_from_string CALLBACKS_MAP self now s =
    (Raise e,
     {| gw := g3;
        trace := trace s ++
                 [EvSearch [Flagged; Seen];
                  EvFetch (Some ids) [INTERNALDATE];
                  EvRemoveFlags [UidList (u :: l)] [F_Flagged; F_Seen]] |}).
Proof.
  intros Ht Hp Hs Hf Hd Hl Hr. unfold process_messages.
  apply bind_raise. unfold reset_timeout_messages. rewrite Ht.
  unfold bind at 1. unfold client_search. rewrite Hs.
  unfold bind at 1. unfold client_fetch. cbn [gw trace]. rewrite Hf.
  unfold bind at 1. unfold bind at 1. unfold lift at 1. rewrite Hp.
  unfold bind at 1.
  rewrite (expired_dated _ ms _ Hd). rewrite Hl.
  unfold ret at 1. unfold bind at 1. unfold read_local, ret at 1.
  unfold mark_unseen, client_remove_flags. cbn [gw trace]. rewrite Hr.
  rewrite <- !app_assoc. reflexivity.
Qed.
End ReaperFailure.

Lemma reaper_failure_ends_cycle_witness :
  process_messages (GW := mailbox_gateway NestedReject)
    Demo.parse [(Demo.cb_all, tt)] Demo.timeout_10 (Demo.clock 100)
    {| gw := Demo.stuck_box; trace := [] |}
  = (Raise {| exn_cls := GatewayError; exn_args := ["bad message set"] |},
     {| gw := Demo.stuck_box;
        trace := [EvSearch [Flagged; Seen];
                  EvFetch (Some [1; 2]%Z) [INTERNALDATE];
                  EvRemoveFlags [UidList [1%Z]] [F_Flagged; F_Seen]] |}).
Proof.
  apply (reaper_failure_ends_cycle (GW := mailbox_gateway NestedReject)
           Demo.parse [(Demo.cb_all, tt)] Demo.timeout_10
           {| gw := Demo.stuck_box; trace := [] |} (Demo.clock 100) 10
           (Demo.clock 90) [1; 2]%Z Demo.stuck_box
           [(1%Z, {| f_rfc822 := None;
                     f_internaldate := Some (Demo.utc 0) |});
            (2%Z, {| f_rfc822 := None;
                     f_internaldate := Some (Demo.utc 95) |})]
           Demo.stuck_box 1%Z []
           {| exn_cls := GatewayError; exn_args := ["bad message set"] |}
           Demo.stuck_box);
    reflexivity.
Defined.

(** ** Running the reaper again *)

Lemma filter_none {A} (f : A -> bool) l :
  (forall x, In x l -> f x = false) -> filter f l = [].
Proof.
  induction l as [|x l IH]; intros H; simpl; [reflexivity|].
  rewrite (H x (or_introl eq_refl)). apply IH. intros y Hy. apply H. now right.
Qed.

Lemma mb_store_uids b l fl mb : map m_uid (mb_store b l fl mb) = map m_uid mb.
Proof.
  unfold mb_store. rewrite map_map. apply map_ext. intros m.
  destruct (mem (m_uid m) l); [apply set_flags_uid | reflexivity].
Qed.

(** With unique ids, running the reaper a second time at the same clock
    leaves the mailbox as the first run left it, whatever the gateway
    makes of the nested id list: what the first run reset is no longer
    in Processing, and what it left is left again. *)
Theorem reaper_twice p {message : Type} self now (mb : mailbox) :
  distinct (map m_uid mb) = true ->
  exec (message := message)
    (reset_timeout_messages (GW := mailbox_gateway p) self now)
    (exec (message := message)
       (reset_timeout_messages (GW := mailbox_gateway p) self now) mb)
  = exec (message := message)
      (reset_timeout_messages (GW := mailbox_gateway p) self now) mb.
Proof.
  intros Hd. destruct self as [[tmo|]]; [|reflexivity].
  destruct (pivot now tmo) as [pv|e] eqn:Hp.
  2:{ unfold exec, run.
      rewrite !(reset_timeout_messages_overflow p tmo now e _ Hp).
      reflexivity. }
  assert (E : forall mb0 : mailbox,
             distinct (map m_uid mb0) = true ->
             exec (message := message)
               (reset_timeout_messages (GW := mailbox_gateway p)
                  {| timeout := Some tmo |} now) mb0
             = match expired_before pv mb0, p with
               | _ :: _, NestedFlatten =>
                   mb_store false (expired_before pv mb0)
                     [F_Flagged; F_Seen] mb0
               | _, _ => mb0
               end).
  { intros mb0 Hd0. unfold exec, run.
    rewrite (reset_timeout_messages_run p tmo now pv _ Hp).
    cbn [gw trace]. rewrite (fetched_expired_distinct pv mb0 Hd0).
    destruct (expired_before pv mb0) as [|u l]; [reflexivity|]. cbv zeta.
    match goal with
    | |- gw (snd (mark_unseen (UidList ?x) ?s)) = _ =>
        destruct (mark_unseen_list_run p x s) as [-> _]
    end.
    destruct p; reflexivity. }
  rewrite (E mb Hd).
  destruct (expired_before pv mb) as [|u l] eqn:X; [now rewrite E, X|].
  destruct p; try (now rewrite E, X).
  rewrite E by (now rewrite mb_store_uids).
  assert (N : expired_before pv
                (mb_store false (u :: l) [F_Flagged; F_Seen] mb) = []).
  { unfold expired_before. rewrite filter_none; [reflexivity|].
    intros x Hx. unfold mb_store in Hx. apply in_map_iff in Hx.
    destruct Hx as [m [<- Hm]].
    destruct (mem (m_uid m) (u :: l)) eqn:Q.
    - rewrite set_flags_spec. reflexivity.
    - destruct ((m_seen m && m_flagged m)
                && (replace_tzinfo_none (m_internaldate m) <? pv)%Z) eqn:B;
        [|reflexivity].
      assert (In (m_uid m) (expired_before pv mb)) as C.
      { unfold expired_before. apply in_map. apply filter_In. auto. }
      rewrite X in C. apply mem_In in C. congruence. }
  now rewrite N.
Qed.

Lemma reaper_twice_witness :
  exec (message := string)
    (reset_timeout_messages (GW := mailbox_gateway NestedFlatten)
       Demo.timeout_10 (Demo.clock 100))
    (exec (message := string)
       (reset_timeout_messages (GW := mailbox_gateway NestedFlatten)
          Demo.timeout_10 (Demo.clock 100)) Demo.stuck_box)
  = exec (message := string)
      (reset_timeout_messages (GW := mailbox_gateway NestedFlatten)
         Demo.timeout_10 (Demo.clock 100)) Demo.stuck_box.
Proof.
  apply (reaper_twice NestedFlatten Demo.timeout_10 (Demo.clock 100)
           Demo.stuck_box).
  reflexivity.
Defined.

Lemma reaper_resets_when_flattened_witness :
  Forall2 (fun m m' =>
             state_of m = Processing ->
             (state_of m' = Unprocessed <->
              Demo.clock 100 - replace_tzinfo_none (m_internaldate m)
              > seconds 10))
          Demo.offset_box
          (exec (message := string)
             (reset_timeout_messages (GW := mailbox_gateway NestedFlatten)
                {| timeout := Some 10%Z |} (Demo.clock 100))
             Demo.offset_box).
Proof.
  apply (reaper_resets_when_flattened (message := string)
           Demo.offset_box 10 (Demo.clock 100) (Demo.clock 90));
    reflexivity.
Defined.

Lemma reset_timeout_messages_no_candidates_witness :
  reset_timeout_messages (GW := mailbox_gateway NestedReject)
    (message := string) Demo.timeout_10 (Demo.clock 100)
    {| gw := Demo.garbage_box; trace := [] |}
  = (Return tt,
     {| gw := Demo.garbage_box;
        trace := [EvSearch [Flagged; Seen];
                  EvFetch (Some []) [INTERNALDATE]] |}).
Proof.
  apply (reset_timeout_messages_no_candidates
           (GW := mailbox_gateway NestedReject) Demo.timeout_10
           {| gw := Demo.garbage_box; trace := [] |} (Demo.clock 100) 10
           (Demo.clock 90) Demo.garbage_box Demo.garbage_box);
    reflexivity.
Defined.

(** ** A timeout whose pivot is not a date, for any gateway *)

Section UnrepresentablePivot.
Context {G : Type} {GW : Gateway G} {message : Type}.
Variable self : MailBot.

(** The pivot is computed as soon as the fetch of the reaper returned a
    mapping, empty or not: when [now - timeout] is not a date Python can
    represent, the error of the subtraction leaves the reaper after its
    two reads, and no flag is touched. *)
Theorem reaper_unrepresentable_pivot (s : st G message) now tmo e
        ids g1 ms g2 :
  timeout self = Some tmo ->
  pivot now tmo = Raise e ->
  gw_search [Flagged; Seen] (gw s) = (Return (Some ids), g1) ->
  gw_fetch (Some ids) [INTERNALDATE] g1 = (Return (Some ms), g2) ->
  reset_timeout_messages self now s =
    (Raise e,
     {| gw := g2;
        trace := trace s ++ [EvSearch [Flagged; Seen];
                             EvFetch (Some ids) [INTERNALDATE]] |}).
Proof.
  intros Ht Hp Hs Hf. unfold reset_timeout_messages. rewrite Ht.
  unfold bind at 1. unfold client_search. rewrite Hs.
  unfold bind at 1. unfold client_fetch. cbn [gw trace]. rewrite Hf.
  unfold bind at 1. unfold bind at 1. unfold lift at 1. rewrite Hp.
  cbn [gw trace]. now rewrite <- app_assoc.
Qed.
End UnrepresentablePivot.

Lemma reaper_unrepresentable_pivot_witness :
  reset_timeout_messages (GW := mailbox_gateway NestedReject)
    (message := string) {| timeout := Some 100000000000%Z |}
    (Demo.clock 100) {| gw := Demo.garbage_box; trace := [] |}
  = (Raise {| exn_cls := OverflowError;
              exn_args := ["date value out of range"] |},
     {| gw := Demo.garbage_box;
        trace := [EvSearch [Flagged; Seen];
                  EvFetch (Some []) [INTERNALDATE]] |}).
Proof.
  apply (reaper_unrepresentable_pivot (GW := mailbox_gateway NestedReject)
           {| timeout := Some 100000000000%Z |}
           {| gw := Demo.garbage_box; trace := [] |} (Demo.clock 100)
           100000000000
           {| exn_cls := OverflowError;
              exn_args := ["date value out of range"] |}
           [] Demo.garbage_box [] Demo.garbage_box);
    reflexivity.
Defined.
